(** * netcap: the layer-encoder framework (encoder/layerEncoder.go)

    A shallow embedding of [InitLayerEncoders], [Init], [Encode] and
    [Destroy].  Package-level variables, the encoders' fields and the calls
    into the I/O collaborators are threaded through an explicit state; a
    [panic] or a process exit is the [Halt] outcome of the error monad. *)

From Stdlib Require Import Ascii.
From stdpp Require Import base strings list gmap fin_maps.

Open Scope string_scope.
Open Scope list_scope.

(** ** Go library functions used by the package *)

(** [strings.Split(s, sep)] for a separator of one character: the pieces of
    [s] between the separators; the empty string gives one empty piece. *)
Fixpoint strings_Split (s : string) (sep : Ascii.ascii) : list string :=
  match s with
  | EmptyString => [EmptyString]
  | String ch rest =>
      if Ascii.eqb ch sep then EmptyString :: strings_Split rest sep
      else match strings_Split rest sep with
           | piece :: pieces => String ch piece :: pieces
           | [] => [String ch EmptyString]
           end
  end.

(** ** Data *)

(** The fields of [Config] that this file reads. *)
Record Config := {
  IncludeEncoders : string;
  ExcludeEncoders : string;
  Buffer : bool;
  Compression : bool;
  CSV : bool;
  Out : string;
  WriteChan : bool
}.

(** An [*os.File] as returned by [CreateFile(name, ext)]. *)
Inductive File := os_File (name ext : string).

(** The writers that [Init] stacks on one another.  [w_file] takes the
    value of the field [d.file] at the time of the call, nil included. *)
Inductive ioWriter :=
| w_file (f : option File)
| bufio_NewWriterSize (w : ioWriter) (size : Z)
| gzip_NewWriter (w : ioWriter)
| newChanWriter.

Inductive delimitedWriter := delimited_NewWriter (w : ioWriter).
Inductive AtomicDelimitedWriter :=
  NewAtomicDelimitedWriter (w : option delimitedWriter).
Inductive csvWriterT := NewCSVWriter (w : ioWriter).

Section Encoder.

(** External collaborators: gopacket's layer types and layers, the
    protobuf messages and record types, and the helper functions of the
    packages [netcap] and [utils]. *)
Context {LayerType : Type} `{Countable LayerType}.
Context {types_Type Layer Message Time Error : Type}.
Variable LayerType_String : LayerType → string.
Variable utils_TimeToString : Time → string.
Variable netcap_InitRecord : types_Type → Message.
Variable NewHeader : types_Type → Config → Message.
Variable filepath_Join : string → string → string.
Variable BlockSize : Z.

(** [allEncoderNames] is declared in a file that is not part of this
    development; it is the table the names are checked against. *)
Variable allEncoderNames : gset string.

Definition LayerEncoderHandler := Layer → string → option Message.

Record LayerEncoder := {
  Layer_ : LayerType;
  Type_ : types_Type;
  file : option File;
  bWriter : option ioWriter;
  gWriter : option ioWriter;
  dWriter : option delimitedWriter;
  aWriter : option AtomicDelimitedWriter;
  Handler : LayerEncoderHandler;
  cWriter : option ioWriter;
  csvWriter : option csvWriterT;
  compress : bool;
  csv : bool;
  buffer : bool;
  out : string
}.

(** [CreateLayerEncoder]: every field but the three given is zero. *)
Definition CreateLayerEncoder (nt : types_Type) (lt : LayerType)
    (handler : LayerEncoderHandler) : LayerEncoder :=
  {| Layer_ := lt; Type_ := nt; file := None; bWriter := None;
     gWriter := None; dWriter := None; aWriter := None; Handler := handler;
     cWriter := None; csvWriter := None; compress := false; csv := false;
     buffer := false; out := "" |}.

(** [e.Layer.String()] *)
Definition name_of (e : LayerEncoder) : string := LayerType_String (Layer_ e).

(** Field assignments. *)
Definition set_config (d : LayerEncoder) (c b v : bool) (o : string) :=
  {| Layer_ := Layer_ d; Type_ := Type_ d; file := file d;
     bWriter := bWriter d; gWriter := gWriter d; dWriter := dWriter d;
     aWriter := aWriter d; Handler := Handler d; cWriter := cWriter d;
     csvWriter := csvWriter d; compress := c; csv := v; buffer := b;
     out := o |}.
Definition set_file (d : LayerEncoder) (f : File) :=
  {| Layer_ := Layer_ d; Type_ := Type_ d; file := Some f;
     bWriter := bWriter d; gWriter := gWriter d; dWriter := dWriter d;
     aWriter := aWriter d; Handler := Handler d; cWriter := cWriter d;
     csvWriter := csvWriter d; compress := compress d; csv := csv d;
     buffer := buffer d; out := out d |}.
Definition set_bWriter (d : LayerEncoder) (w : ioWriter) :=
  {| Layer_ := Layer_ d; Type_ := Type_ d; file := file d;
     bWriter := Some w; gWriter := gWriter d; dWriter := dWriter d;
     aWriter := aWriter d; Handler := Handler d; cWriter := cWriter d;
     csvWriter := csvWriter d; compress := compress d; csv := csv d;
     buffer := buffer d; out := out d |}.
Definition set_gWriter (d : LayerEncoder) (w : ioWriter) :=
  {| Layer_ := Layer_ d; Type_ := Type_ d; file := file d;
     bWriter := bWriter d; gWriter := Some w; dWriter := dWriter d;
     aWriter := aWriter d; Handler := Handler d; cWriter := cWriter d;
     csvWriter := csvWriter d; compress := compress d; csv := csv d;
     buffer := buffer d; out := out d |}.
Definition set_dWriter (d : LayerEncoder) (w : delimitedWriter) :=
  {| Layer_ := Layer_ d; Type_ := Type_ d; file := file d;
     bWriter := bWriter d; gWriter := gWriter d; dWriter := Some w;
     aWriter := aWriter d; Handler := Handler d; cWriter := cWriter d;
     csvWriter := csvWriter d; compress := compress d; csv := csv d;
     buffer := buffer d; out := out d |}.
Definition set_aWriter (d : LayerEncoder) (w : AtomicDelimitedWriter) :=
  {| Layer_ := Layer_ d; Type_ := Type_ d; file := file d;
     bWriter := bWriter d; gWriter := gWriter d; dWriter := dWriter d;
     aWriter := Some w; Handler := Handler d; cWriter := cWriter d;
     csvWriter := csvWriter d; compress := compress d; csv := csv d;
     buffer := buffer d; out := out d |}.
Definition set_cWriter (d : LayerEncoder) (w : ioWriter) :=
  {| Layer_ := Layer_ d; Type_ := Type_ d; file := file d;
     bWriter := bWriter d; gWriter := gWriter d; dWriter := dWriter d;
     aWriter := aWriter d; Handler := Handler d; cWriter := Some w;
     csvWriter := csvWriter d; compress := compress d; csv := csv d;
     buffer := buffer d; out := out d |}.
Definition set_csvWriter (d : LayerEncoder) (w : csvWriterT) :=
  {| Layer_ := Layer_ d; Type_ := Type_ d; file := file d;
     bWriter := bWriter d; gWriter := gWriter d; dWriter := dWriter d;
     aWriter := aWriter d; Handler := Handler d; cWriter := cWriter d;
     csvWriter := Some w; compress := compress d; csv := csv d;
     buffer := buffer d; out := out d |}.

(** ** Effects *)

(** One write handed to the top of an encoder's writer stack. *)
Inductive WriteOp :=
| csv_WriteHeader (w : csvWriterT) (m : Message)
| csv_WriteRecord (w : csvWriterT) (m : Message)
| PutProto (w : AtomicDelimitedWriter) (m : Message).

(** What the package does to the outside world, in program order. *)
Inductive Event :=
| EvCreateFile (name ext : string)
| EvNewChanWriter
| EvWrite (op : WriteOp) (err : option Error)
| EvCloseGzipWriters (w : option ioWriter)
| EvFlushWriters (w : option ioWriter)
| EvCloseFile (outDir : string) (f : option File) (typ : string).

(** The environment: the error (or nil) that a write returns, and what
    [CloseFile] reports, both as functions of everything done so far. *)
Variable write_result : list Event → WriteOp → option Error.
Variable CloseFile_result : list Event → string → option File → string → string * Z.

(** The package-level variables and the trace of effects. *)
Record Pkg := {
  layerEncoderSlice : list LayerEncoder;
  LayerEncoders : gmap LayerType LayerEncoder;
  trace : list Event
}.

Inductive Fatal :=
| ExitInvalidProto (name : string)
| PanicString (msg : string)
| PanicError (err : Error)
| PanicNilPointer.

Inductive Result (A : Type) :=
| Ok (a : A) (s : Pkg)
| Halt (f : Fatal) (s : Pkg).
Global Arguments Ok {A} a s.
Global Arguments Halt {A} f s.

Definition M (A : Type) : Type := Pkg → Result A.

Global Instance M_ret : MRet M := λ A a s, Ok a s.
Global Instance M_bind : MBind M := λ A B k m s,
  match m s with
  | Ok a s' => k a s'
  | Halt f s' => Halt f s'
  end.

Definition with_slice (l : list LayerEncoder) (s : Pkg) : Pkg :=
  {| layerEncoderSlice := l; LayerEncoders := LayerEncoders s;
     trace := trace s |}.
Definition with_event (ev : Event) (s : Pkg) : Pkg :=
  {| layerEncoderSlice := layerEncoderSlice s;
     LayerEncoders := LayerEncoders s; trace := trace s ++ [ev] |}.
Definition with_encoder (k : LayerType) (e : LayerEncoder) (s : Pkg) : Pkg :=
  {| layerEncoderSlice := layerEncoderSlice s;
     LayerEncoders := <[k := e]> (LayerEncoders s); trace := trace s |}.

Definition emit (ev : Event) : M unit := λ s, Ok tt (with_event ev s).
Definition panic {A} (f : Fatal) : M A := λ s, Halt f s.
Definition get_layerEncoderSlice : M (list LayerEncoder) := λ s,
  Ok (layerEncoderSlice s) s.
Definition put_layerEncoderSlice (l : list LayerEncoder) : M unit := λ s,
  Ok tt (with_slice l s).
Definition put_LayerEncoders (k : LayerType) (e : LayerEncoder) : M unit := λ s,
  Ok tt (with_encoder k e s).

(** The state an outcome leaves behind. *)
Definition state_of {A} (r : Result A) : Pkg :=
  match r with Ok _ s | Halt _ s => s end.

(** A write: the environment decides the error, the trace records it. *)
Definition do_write (op : WriteOp) : M (option Error) := λ s,
  let r := write_result (trace s) op in
  Ok r (with_event (EvWrite op r) s).

(** ** Helpers of the package that live in other files *)

(** Modelled from the spec: [invalidProto] is not in this file; an unknown
    name is "a fatal configuration error", so the call does not return. *)
Definition invalidProto (name : string) : M unit :=
  panic (ExitInvalidProto name).

(** Modelled from the spec: [CreateFile(name, ext)] is not in this file; it
    creates the file [name ++ ext] and returns its handle. *)
Definition CreateFile (name ext : string) : M File :=
  emit (EvCreateFile name ext) ;; mret (os_File name ext).

Definition CloseGzipWriters (w : option ioWriter) : M unit :=
  emit (EvCloseGzipWriters w).
Definition FlushWriters (w : option ioWriter) : M unit :=
  emit (EvFlushWriters w).
Definition CloseFile (outDir : string) (f : option File) (typ : string)
    : M (string * Z) := λ s,
  let r := CloseFile_result (trace s) outDir f typ in
  Ok r (with_event (EvCloseFile outDir f typ) s).

(** A method called through a nil writer pointer panics. *)
Definition csvWriter_WriteHeader (w : option csvWriterT) (m : Message)
    : M (option Error) :=
  match w with
  | Some w => do_write (csv_WriteHeader w m)
  | None => panic PanicNilPointer
  end.
Definition csvWriter_WriteRecord (w : option csvWriterT) (m : Message)
    : M (option Error) :=
  match w with
  | Some w => do_write (csv_WriteRecord w m)
  | None => panic PanicNilPointer
  end.
Definition aWriter_PutProto (w : option AtomicDelimitedWriter) (m : Message)
    : M (option Error) :=
  match w with
  | Some w => do_write (PutProto w m)
  | None => panic PanicNilPointer
  end.

(** ** [Init] *)

Definition Init (d : LayerEncoder) (buffer compress csv : bool) (out : string)
    (writeChan : bool) : M LayerEncoder :=
  let d := set_config d compress buffer csv out in
  if csv then
    f ← (if compress
         then CreateFile (filepath_Join out (name_of d)) ".csv.gz"
         else CreateFile (filepath_Join out (name_of d)) ".csv");
    let d := set_file d f in
    if buffer then
      let b := bufio_NewWriterSize (w_file (file d)) BlockSize in
      let d := set_bWriter d b in
      if compress then
        let g := gzip_NewWriter b in
        let d := set_gWriter d g in
        mret (set_csvWriter d (NewCSVWriter g))
      else
        mret (set_csvWriter d (NewCSVWriter b))
    else
      if compress then
        let g := gzip_NewWriter (w_file (file d)) in
        let d := set_gWriter d g in
        mret (set_csvWriter d (NewCSVWriter g))
      else
        mret (set_csvWriter d (NewCSVWriter (w_file (file d))))
  else
    if writeChan && buffer || writeChan && compress then
      panic (PanicString
        "buffering or compression cannot be activated when running using writeChan")
    else
      d ← (if writeChan then
             emit EvNewChanWriter ;; mret (set_cWriter d newChanWriter)
           else
             f ← (if compress
                  then CreateFile (filepath_Join out (name_of d)) ".ncap.gz"
                  else CreateFile (filepath_Join out (name_of d)) ".ncap");
             mret (set_file d f));
      let d :=
        if buffer then
          let b := bufio_NewWriterSize (w_file (file d)) BlockSize in
          let d := set_bWriter d b in
          if compress then
            let g := gzip_NewWriter b in
            let d := set_gWriter d g in
            set_dWriter d (delimited_NewWriter g)
          else
            set_dWriter d (delimited_NewWriter b)
        else
          if compress then
            let g := gzip_NewWriter (w_file (file d)) in
            let d := set_gWriter d g in
            set_dWriter d (delimited_NewWriter g)
          else
            if writeChan then
              set_dWriter d (delimited_NewWriter newChanWriter)
            else
              set_dWriter d (delimited_NewWriter (w_file (file d))) in
      mret (set_aWriter d (NewAtomicDelimitedWriter (dWriter d))).

(** ** [Encode] and [Destroy] *)

Definition Encode (d : LayerEncoder) (l : Layer) (timestamp : Time)
    : M (option Error) :=
  let decoded := Handler d l (utils_TimeToString timestamp) in
  match decoded with
  | Some decoded =>
      if csv d then
        err ← csvWriter_WriteRecord (csvWriter d) decoded;
        match err with
        | Some err => mret (Some err)
        | None => mret None
        end
      else
        err ← aWriter_PutProto (aWriter d) decoded;
        match err with
        | Some err => mret (Some err)
        | None => mret None
        end
  | None => mret None
  end.

Definition Destroy (d : LayerEncoder) : M (string * Z) :=
  (if compress d then CloseGzipWriters (gWriter d) else mret tt) ;;
  (if buffer d then FlushWriters (bWriter d) else mret tt) ;;
  CloseFile (out d) (file d) (name_of d).

(** [GetChan]: the channel of the channel writer, which stands for it here;
    the call goes through the pointer [d.cWriter]. *)
Definition GetChan (d : LayerEncoder) : M ioWriter :=
  match cWriter d with
  | Some w => mret w
  | None => panic PanicNilPointer
  end.

(** ** [InitLayerEncoders] *)

(** The loop over [in]: every non-empty name is checked and entered in
    [inMap]. *)
Fixpoint include_loop (names : list string) (inMap : gmap string bool)
    : M (gmap string bool) :=
  match names with
  | [] => mret inMap
  | name :: names' =>
      if decide (name = "") then include_loop names' inMap
      else
        (if decide (name ∈ allEncoderNames) then mret tt
         else invalidProto name) ;;
        include_loop names' (<[name := true]> inMap)
  end.

(** The loop that appends the encoders named in [inMap] to [selection]. *)
Fixpoint select_loop (inMap : gmap string bool) (es : list LayerEncoder)
    (selection : list LayerEncoder) : list LayerEncoder :=
  match es with
  | [] => selection
  | e :: es' =>
      if decide (is_Some (inMap !! name_of e))
      then select_loop inMap es' (selection ++ [e])
      else select_loop inMap es' selection
  end.

(** The inner loop over the slice: the index of the first encoder called
    [name], where the loop breaks. *)
Fixpoint find_encoder (name : string) (es : list LayerEncoder) (i : nat)
    : option nat :=
  match es with
  | [] => None
  | e :: es' =>
      if decide (name = name_of e) then Some i
      else find_encoder name es' (S i)
  end.

(** [append(layerEncoderSlice[:i], layerEncoderSlice[i+1:]...)].  The
    splice writes into the array of the slice; no other slice of that array
    is read afterwards, so the list of the remaining encoders is all that
    can be observed of it. *)
Definition remove_encoder (name : string) (es : list LayerEncoder)
    : list LayerEncoder :=
  match find_encoder name es 0 with
  | Some i => take i es ++ drop (S i) es
  | None => es
  end.

(** The loop over [ex]. *)
Fixpoint exclude_loop (names : list string) : M unit :=
  match names with
  | [] => mret tt
  | name :: names' =>
      (if decide (name = "") then mret tt
       else
         (if decide (name ∈ allEncoderNames) then mret tt
          else invalidProto name) ;;
         es ← get_layerEncoderSlice;
         put_layerEncoderSlice (remove_encoder name es)) ;;
      exclude_loop names'
  end.

(** The header of one encoder, after its [Init]. *)
Definition write_header (c : Config) (e : LayerEncoder) : M unit :=
  if csv e then
    err ← csvWriter_WriteHeader (csvWriter e) (netcap_InitRecord (Type_ e));
    match err with
    | Some err => panic (PanicError err)
    | None => mret tt
    end
  else
    err ← aWriter_PutProto (aWriter e) (NewHeader (Type_ e) c);
    match err with
    | Some err => panic (PanicError err)
    | None => mret tt
    end.

(** The slice holds pointers: what [Init] assigns to the fields of the
    encoder at index [i] is seen through the slice. *)
Definition store_encoder (i : nat) (e : LayerEncoder) : M unit :=
  es ← get_layerEncoderSlice; put_layerEncoderSlice (<[i := e]> es).

(** The loop that builds the encoders, over the slice as it is when the
    loop starts. *)
Fixpoint init_loop (c : Config) (i : nat) (es : list LayerEncoder) : M unit :=
  match es with
  | [] => mret tt
  | e :: es' =>
      e' ← Init e (Buffer c) (Compression c) (CSV c) (Out c) (WriteChan c);
      store_encoder i e' ;;
      write_header c e' ;;
      put_LayerEncoders (Layer_ e') e' ;;
      init_loop c (S i) es'
  end.

(** Lines 119 to 162: the include and exclude lists applied to the
    package-level slice. *)
Definition resolve (c : Config) : M unit :=
  let in_ := strings_Split (IncludeEncoders c) ","%char in
  let ex := strings_Split (ExcludeEncoders c) ","%char in
  (if decide (0 < length in_ ∧ in_ !! 0 ≠ Some "") then
     inMap ← include_loop in_ ∅;
     es ← get_layerEncoderSlice;
     put_layerEncoderSlice (select_loop inMap es [])
   else mret tt) ;;
  exclude_loop ex.

(** The messages printed on standard output are left out. *)
Definition InitLayerEncoders (c : Config) : M unit :=
  resolve c ;;
  es ← get_layerEncoderSlice;
  init_loop c 0 es.

(** ** The vocabulary of the properties *)

(** The names of a list that the loops look at. *)
Definition named (names : list string) : list string :=
  filter (λ n, n ≠ "") names.

Definition mark (inMap : gmap string bool) (names : list string)
    : gmap string bool :=
  foldl (λ m n, <[n := true]> m) inMap names.

(** The slice after the loop over [ex], as a function of the slice
    before it. *)
Definition excluded (names : list string) (es : list LayerEncoder)
    : list LayerEncoder :=
  foldl (λ es n, remove_encoder n es) es names.

(** The active set as the specification words it: the catalog when no name
    is included, else the catalog restricted to the included names; the
    excluded names are then taken out.  Filtering keeps the order. *)
Definition Resolve_spec (c : Config) (catalog : list LayerEncoder)
    : list LayerEncoder :=
  let includeNames := named (strings_Split (IncludeEncoders c) ",") in
  let excludeNames := named (strings_Split (ExcludeEncoders c) ",") in
  filter (λ e, name_of e ∉ excludeNames)
    (if decide (includeNames = []) then catalog
     else filter (λ e, name_of e ∈ includeNames) catalog).

(** Every name of both lists is in the table of known names. *)
Definition names_known (c : Config) : Prop :=
  Forall (λ n, n ∈ allEncoderNames)
    (named (strings_Split (IncludeEncoders c) ",")) ∧
  Forall (λ n, n ∈ allEncoderNames)
    (named (strings_Split (ExcludeEncoders c) ",")).

(** The include list is one that the guard of line 128 reads as given:
    its first entry is a name, or it holds no name at all. *)
Definition include_well_formed (c : Config) : Prop :=
  strings_Split (IncludeEncoders c) "," !! 0 ≠ Some "" ∨
  named (strings_Split (IncludeEncoders c) ",") = [].

Definition with_events (evs : list Event) (s : Pkg) : Pkg :=
  {| layerEncoderSlice := layerEncoderSlice s;
     LayerEncoders := LayerEncoders s; trace := trace s ++ evs |}.

(** The extension of the sink file, by output shape and compression. *)
Definition sink_ext (csv compress : bool) : string :=
  if csv then (if compress then ".csv.gz" else ".csv")
  else (if compress then ".ncap.gz" else ".ncap").

(** The sink is a file: always for tabular output, and for binary output
    unless the live stream is asked for. *)
Definition file_backed (csv writeChan : bool) : bool := csv || negb writeChan.

Definition sink_file (d : LayerEncoder) (compress csv : bool) (out : string)
    : File :=
  os_File (filepath_Join out (name_of d)) (sink_ext csv compress).

(** What [Init] does to the outside world when it returns. *)
Definition sink_events (d : LayerEncoder) (compress csv : bool) (out : string)
    (writeChan : bool) : list Event :=
  if file_backed csv writeChan
  then [EvCreateFile (filepath_Join out (name_of d)) (sink_ext csv compress)]
  else [EvNewChanWriter].

(** The stack of writers over [base]: the buffer if asked for, then the
    compressor if asked for. *)
Definition writer_stack (buffer compress : bool) (base : ioWriter) : ioWriter :=
  let b := if buffer then bufio_NewWriterSize base BlockSize else base in
  if compress then gzip_NewWriter b else b.

(** The bottom of the stack of [d'], an encoder that [Init] returned. *)
Definition sink_base (d' : LayerEncoder) (csv writeChan : bool) : ioWriter :=
  if file_backed csv writeChan then w_file (file d') else newChanWriter.

(** The fields of [d'] after [Init] of [d]. *)
Definition initialised (d d' : LayerEncoder) (buf comp tab : bool)
    (dir : string) (live : bool) : Prop :=
  Layer_ d' = Layer_ d ∧ Type_ d' = Type_ d ∧ Handler d' = Handler d ∧
  compress d' = comp ∧ buffer d' = buf ∧ csv d' = tab ∧ out d' = dir ∧
  file d' = (if file_backed tab live
             then Some (sink_file d comp tab dir) else file d) ∧
  (buf = true →
   bWriter d' = Some (bufio_NewWriterSize (sink_base d' tab live) BlockSize)) ∧
  (comp = true →
   gWriter d' = Some (writer_stack buf true (sink_base d' tab live))) ∧
  (if tab
   then csvWriter d'
        = Some (NewCSVWriter (writer_stack buf comp (sink_base d' tab live)))
   else aWriter d'
        = Some (NewAtomicDelimitedWriter (Some (delimited_NewWriter
            (writer_stack buf comp (sink_base d' tab live)))))).

(** The check of line 263. *)
Definition live_stream_conflict (buffer compress writeChan : bool) : bool :=
  writeChan && buffer || writeChan && compress.

(** The write that [Encode] hands to the sink of [d] for the record [m];
    none when the writer of the shape of [d] is nil. *)
Definition record_write (d : LayerEncoder) (m : Message) : option WriteOp :=
  if csv d then (λ w, csv_WriteRecord w m) <$> csvWriter d
  else (λ w, PutProto w m) <$> aWriter d.

(** The teardown steps that come before the file is closed. *)
Definition closing_events (d : LayerEncoder) : list Event :=
  (if compress d then [EvCloseGzipWriters (gWriter d)] else []) ++
  (if buffer d then [EvFlushWriters (bWriter d)] else []).

(** The header write of an encoder that [Init] returned; none when the
    writer of its shape is nil. *)
Definition header_op (c : Config) (e : LayerEncoder) : option WriteOp :=
  if csv e
  then (λ w, csv_WriteHeader w (netcap_InitRecord (Type_ e))) <$> csvWriter e
  else (λ w, PutProto w (NewHeader (Type_ e) c)) <$> aWriter e.

Definition header_events (c : Config) (e : LayerEncoder) : list Event :=
  match header_op c e with
  | Some op => [EvWrite op None]
  | None => []
  end.

(** What building one encoder adds to the trace: its sink is created, then
    its header is written. *)
Definition init_events (c : Config) (e : LayerEncoder) : list Event :=
  sink_events e (Compression c) (CSV c) (Out c) (WriteChan c)
  ++ header_events c e.

(** The error of a write that failed. *)
Definition failed_write (ev : Event) : option Error :=
  match ev with
  | EvWrite _ (Some err) => Some err
  | _ => None
  end.

(** The registry after the encoders [es] were entered in it, in order. *)
Definition registered (es : list LayerEncoder)
    (m : gmap LayerType LayerEncoder) : gmap LayerType LayerEncoder :=
  foldl (λ m e, <[Layer_ e := e]> m) m es.

(** The names of the active set, from the names of the catalog. *)
Definition Resolve_names (c : Config) (catalog : list string) : list string :=
  let includeNames := named (strings_Split (IncludeEncoders c) ",") in
  let excludeNames := named (strings_Split (ExcludeEncoders c) ",") in
  filter (λ n, n ∉ excludeNames)
    (if decide (includeNames = []) then catalog
     else filter (λ n, n ∈ includeNames) catalog).

(** The configuration [c] with an empty include list. *)
Definition without_include (c : Config) : Config :=
  {| IncludeEncoders := ""; ExcludeEncoders := ExcludeEncoders c;
     Buffer := Buffer c; Compression := Compression c; CSV := CSV c;
     Out := Out c; WriteChan := WriteChan c |}.

(** The guard of line 128. *)
Definition include_given (c : Config) : Prop :=
  0 < length (strings_Split (IncludeEncoders c) ",") ∧
  strings_Split (IncludeEncoders c) "," !! 0 ≠ Some "".

(** The slice that the resolution leaves, whatever the lists hold: the
    encoders named in the include list when the guard lets it in, then the
    first encoder of each excluded name taken out. *)
Definition resolved (c : Config) (es : list LayerEncoder) : list LayerEncoder :=
  excluded (named (strings_Split (ExcludeEncoders c) ","))
    (if decide (include_given c)
     then filter (λ e, name_of e ∈ named (strings_Split (IncludeEncoders c) ","))
            es
     else es).

(** The write of an event. *)
Definition event_op (ev : Event) : option WriteOp :=
  match ev with
  | EvWrite op _ => Some op
  | _ => None
  end.

(** [Encode] called for each layer in turn, the way a driver that goes on
    after an error calls it; the errors are collected. *)
Fixpoint Encode_each (d : LayerEncoder) (inputs : list (Layer * Time))
    : M (list (option Error)) :=
  match inputs with
  | [] => mret []
  | (l, timestamp) :: inputs' =>
      err ← Encode d l timestamp;
      errs ← Encode_each d inputs';
      mret (err :: errs)
  end.

(** * Properties *)

(** ** The monad *)

Lemma bind_Ok_inv {A B} (m : M A) (k : A → M B) (s s2 : Pkg) (b : B) :
  (m ≫= k) s = Ok b s2 → ∃ a s1, m s = Ok a s1 ∧ k a s1 = Ok b s2.
Proof.
  unfold mbind, M_bind. destruct (m s) as [a s1|f s1]; [eauto | done].
Qed.

(** ** Resolution: the include list *)

Lemma mark_lookup (names : list string) (inMap : gmap string bool) (k : string) :
  is_Some (mark inMap names !! k) ↔ is_Some (inMap !! k) ∨ k ∈ names.
Proof.
  revert inMap. induction names as [|n names IH]; intros inMap; simpl.
  - rewrite elem_of_nil. tauto.
  - rewrite IH, elem_of_cons, lookup_insert_is_Some'. intuition congruence.
Qed.

Lemma include_loop_state (names : list string) (inMap : gmap string bool) (s : Pkg) :
  state_of (include_loop names inMap s) = s.
Proof.
  revert inMap. induction names as [|n names IH]; intros inMap; simpl; [done|].
  case_decide; [apply IH|].
  case_decide; [apply IH | done].
Qed.

Lemma include_loop_known (names : list string) (inMap : gmap string bool) (s : Pkg) :
  Forall (λ n, n ∈ allEncoderNames) (named names) →
  include_loop names inMap s = Ok (mark inMap (named names)) s.
Proof.
  unfold named. revert inMap.
  induction names as [|n names IH]; intros inMap Hall; simpl; [done|].
  case_decide as Hn.
  - rewrite filter_cons_False in Hall |- * by tauto. by apply IH.
  - rewrite filter_cons_True in Hall |- * by done.
    apply Forall_cons in Hall as [Hin Hall].
    case_decide; [|done]. simpl. by apply IH.
Qed.

Lemma include_loop_unknown (names : list string) (inMap : gmap string bool) (s : Pkg) :
  ¬ Forall (λ n, n ∈ allEncoderNames) (named names) →
  ∃ n, n ∈ named names ∧ (n ∉ allEncoderNames) ∧
       include_loop names inMap s = Halt (ExitInvalidProto n) s.
Proof.
  unfold named. revert inMap.
  induction names as [|n names IH]; intros inMap Hbad; simpl.
  - destruct Hbad. constructor.
  - case_decide as Hn.
    + rewrite filter_cons_False in Hbad |- * by tauto. by apply IH.
    + rewrite filter_cons_True in Hbad |- * by done.
      case_decide as Hk.
      * destruct (IH (<[n:=true]> inMap)) as (n' & Hin & Hnk & Hrun).
        { intros Hall. apply Hbad. by constructor. }
        exists n'. split_and!; [by right | done | done].
      * exists n. split_and!; [by left | done | done].
Qed.

Lemma select_loop_filter (inMap : gmap string bool) (es selection : list LayerEncoder) :
  select_loop inMap es selection
  = selection ++ filter (λ e, is_Some (inMap !! name_of e)) es.
Proof.
  revert selection. induction es as [|e es IH]; intros selection; simpl.
  - by rewrite app_nil_r.
  - case_decide.
    + rewrite IH, filter_cons_True by done. by rewrite <- app_assoc.
    + by rewrite IH, filter_cons_False by done.
Qed.


(** ** Resolution: the exclude list *)

Lemma find_encoder_S (name : string) (es : list LayerEncoder) (i : nat) :
  find_encoder name es (S i) = S <$> find_encoder name es i.
Proof.
  revert i. induction es as [|e es IH]; intros i; simpl; [done|].
  case_decide; [done | apply IH].
Qed.

Lemma remove_encoder_cons (name : string) (e : LayerEncoder) (es : list LayerEncoder) :
  remove_encoder name (e :: es)
  = if decide (name = name_of e) then es else e :: remove_encoder name es.
Proof.
  unfold remove_encoder. simpl. case_decide; [by rewrite drop_0|].
  rewrite find_encoder_S. by destruct (find_encoder name es 0).
Qed.

Lemma filter_all {A} (P : A → Prop) `{!∀ x, Decision (P x)} (l : list A) :
  Forall P l → filter P l = l.
Proof.
  induction 1 as [|x l Hx Hl IH]; [done|].
  by rewrite filter_cons_True, IH.
Qed.

Lemma filter_absent (name : string) (es : list LayerEncoder) :
  name ∉ name_of <$> es → filter (λ e, name_of e ≠ name) es = es.
Proof.
  intros Hnot. apply filter_all, Forall_forall. intros e He Heq.
  apply Hnot. rewrite <- Heq. apply list_elem_of_fmap. eauto.
Qed.

(** With pairwise distinct names, removing the first encoder of a name
    removes every encoder of that name. *)
Lemma remove_encoder_filter (name : string) (es : list LayerEncoder) :
  NoDup (name_of <$> es) →
  remove_encoder name es = filter (λ e, name_of e ≠ name) es.
Proof.
  induction es as [|e es IH]; intros Hnd; [done|].
  rewrite fmap_cons in Hnd. apply NoDup_cons in Hnd as [Hnot Hnd].
  rewrite remove_encoder_cons. case_decide as Hn.
  - subst name. rewrite filter_cons_False by tauto.
    by rewrite filter_absent.
  - rewrite filter_cons_True by congruence. by rewrite IH.
Qed.

Lemma remove_encoder_sublist (name : string) (es : list LayerEncoder) :
  remove_encoder name es `sublist_of` es.
Proof.
  induction es as [|e es IH]; [done|].
  rewrite remove_encoder_cons. case_decide.
  - by apply sublist_cons.
  - by apply sublist_skip.
Qed.

Lemma excluded_sublist (names : list string) (es : list LayerEncoder) :
  excluded names es `sublist_of` es.
Proof.
  revert es. induction names as [|n names IH]; intros es; simpl; [done|].
  etrans; [apply IH | apply remove_encoder_sublist].
Qed.

Lemma excluded_filter (names : list string) (es : list LayerEncoder) :
  NoDup (name_of <$> es) →
  excluded names es = filter (λ e, name_of e ∉ names) es.
Proof.
  revert es. induction names as [|n names IH]; intros es Hnd; simpl.
  - symmetry. apply filter_all, Forall_forall. intros e _. apply not_elem_of_nil.
  - rewrite IH.
    2: { eapply sublist_NoDup; [exact Hnd|].
         apply fmap_sublist, remove_encoder_sublist. }
    rewrite remove_encoder_filter by done.
    rewrite list_filter_filter. apply list_filter_iff. intros e.
    rewrite not_elem_of_cons. tauto.
Qed.

Lemma exclude_loop_state (names : list string) (s : Pkg) :
  trace (state_of (exclude_loop names s)) = trace s ∧
  LayerEncoders (state_of (exclude_loop names s)) = LayerEncoders s.
Proof.
  revert s. induction names as [|n names IH]; intros s; simpl; [done|].
  unfold mbind, M_bind. case_decide; simpl; [apply IH|].
  case_decide; simpl; [|done].
  destruct (IH (with_slice (remove_encoder n (layerEncoderSlice s)) s)) as [-> ->].
  done.
Qed.

Lemma exclude_loop_known (names : list string) (s : Pkg) :
  Forall (λ n, n ∈ allEncoderNames) (named names) →
  exclude_loop names s
  = Ok tt (with_slice (excluded (named names) (layerEncoderSlice s)) s).
Proof.
  unfold named. revert s.
  induction names as [|n names IH]; intros s Hall; simpl.
  - by destruct s.
  - unfold mbind, M_bind. case_decide as Hn; simpl.
    + rewrite filter_cons_False in Hall |- * by tauto. by apply IH.
    + rewrite filter_cons_True in Hall |- * by done.
      apply Forall_cons in Hall as [Hin Hall].
      case_decide; [|done]. simpl. by rewrite IH.
Qed.

Lemma exclude_loop_unknown (names : list string) (s : Pkg) :
  ¬ Forall (λ n, n ∈ allEncoderNames) (named names) →
  ∃ n s', n ∈ named names ∧ (n ∉ allEncoderNames) ∧
          exclude_loop names s = Halt (ExitInvalidProto n) s'.
Proof.
  unfold named. revert s.
  induction names as [|n names IH]; intros s Hbad; simpl.
  - destruct Hbad. constructor.
  - unfold mbind, M_bind. case_decide as Hn; simpl.
    + rewrite filter_cons_False in Hbad |- * by tauto. by apply IH.
    + rewrite filter_cons_True in Hbad |- * by done.
      case_decide as Hk; simpl.
      * destruct (IH (with_slice (remove_encoder n (layerEncoderSlice s)) s))
          as (n' & s' & Hin & Hnk & Hrun).
        { intros Hall. apply Hbad. by constructor. }
        exists n', s'. split_and!; [by right | done | done].
      * exists n, s. split_and!; [by left | done | done].
Qed.


(** ** Resolution as a whole *)

Lemma named_head (names : list string) :
  0 < length names → names !! 0 ≠ Some "" → named names ≠ [].
Proof.
  destruct names as [|n names]; simpl; [lia|]. intros _ Hn. unfold named.
  rewrite filter_cons_True by congruence. done.
Qed.

Lemma named_unguarded (names : list string) :
  ¬ (0 < length names ∧ names !! 0 ≠ Some "") →
  names !! 0 ≠ Some "" ∨ named names = [] → named names = [].
Proof.
  intros Hg [Hhead|]; [|done].
  destruct names as [|n names]; [done|]. destruct Hg. simpl. split; [lia|done].
Qed.

Lemma resolve_state (c : Config) (s : Pkg) :
  trace (state_of (resolve c s)) = trace s ∧
  LayerEncoders (state_of (resolve c s)) = LayerEncoders s.
Proof.
  unfold resolve, mbind, M_bind. case_decide as Hg; simpl.
  - pose proof (include_loop_state (strings_Split (IncludeEncoders c) ",") ∅ s) as Hs.
    destruct (include_loop _ ∅ s) as [inMap s1|f s1]; simpl in *; subst s1; [|done].
    apply (exclude_loop_state _ (with_slice _ s)).
  - apply exclude_loop_state.
Qed.

Lemma resolve_known (c : Config) (s : Pkg) :
  names_known c → include_well_formed c →
  NoDup (name_of <$> layerEncoderSlice s) →
  resolve c s = Ok tt (with_slice (Resolve_spec c (layerEncoderSlice s)) s).
Proof.
  intros [Hin Hex] Hwf Hnd. unfold resolve, Resolve_spec, mbind, M_bind.
  set (in_ := strings_Split (IncludeEncoders c) ",") in *.
  set (ex := strings_Split (ExcludeEncoders c) ",") in *.
  case_decide as Hg; simpl.
  - destruct Hg as [Hlen Hhead].
    rewrite include_loop_known by done. simpl.
    rewrite exclude_loop_known by done. simpl.
    rewrite select_loop_filter, app_nil_l.
    rewrite decide_False by by apply named_head.
    f_equal. unfold with_slice. simpl. f_equal.
    rewrite excluded_filter.
    + f_equal. apply list_filter_iff. intros e.
      rewrite mark_lookup, lookup_empty, is_Some_alt. tauto.
    + eapply sublist_NoDup; [exact Hnd|]. apply fmap_sublist, sublist_filter.
  - pose proof (named_unguarded in_ Hg Hwf) as Hnone.
    rewrite decide_True by done.
    rewrite exclude_loop_known by done. by rewrite excluded_filter.
Qed.

(** A run of the resolution that returns leaves a sublist of the slice it
    started from. *)
Lemma resolve_sublist (c : Config) (s s' : Pkg) :
  resolve c s = Ok tt s' →
  layerEncoderSlice s' `sublist_of` layerEncoderSlice s.
Proof.
  unfold resolve. intros Hrun.
  apply bind_Ok_inv in Hrun as ([] & s1 & Hinc & Hexc).
  assert (layerEncoderSlice s1 `sublist_of` layerEncoderSlice s) as Hs1.
  { case_decide; [|by inversion Hinc].
    apply bind_Ok_inv in Hinc as (inMap & s2 & Hloop & Hput).
    pose proof (include_loop_state (strings_Split (IncludeEncoders c) ",") ∅ s) as Hs.
    rewrite Hloop in Hs. simpl in Hs. subst s2.
    inversion Hput. simpl. rewrite select_loop_filter. apply sublist_filter. }
  destruct (decide (Forall (λ n, n ∈ allEncoderNames)
              (named (strings_Split (ExcludeEncoders c) ",")))) as [Hk|Hk].
  - rewrite exclude_loop_known in Hexc by done. inversion Hexc. simpl.
    etrans; [apply excluded_sublist | done].
  - apply (exclude_loop_unknown _ s1) in Hk as (n & s2 & _ & _ & Hab). congruence.
Qed.

(** An unknown name in the include list, when that list is read at all,
    and an unknown name in the exclude list stop the resolution. *)
Lemma resolve_unknown_include (c : Config) (s : Pkg) :
  strings_Split (IncludeEncoders c) "," !! 0 ≠ Some "" →
  ¬ Forall (λ n, n ∈ allEncoderNames)
      (named (strings_Split (IncludeEncoders c) ",")) →
  ∃ n, n ∈ named (strings_Split (IncludeEncoders c) ",") ∧
       (n ∉ allEncoderNames) ∧
       resolve c s = Halt (ExitInvalidProto n) s.
Proof.
  intros Hhead Hbad. unfold resolve, mbind, M_bind.
  destruct (include_loop_unknown _ ∅ s Hbad) as (n & Hn & Hnk & Hrun).
  exists n. split_and!; [done..|].
  rewrite decide_True.
  - by rewrite Hrun.
  - split; [|done]. destruct (strings_Split (IncludeEncoders c) ","); simpl; [|lia].
    destruct Hbad. constructor.
Qed.

Lemma resolve_unknown_exclude (c : Config) (s : Pkg) :
  Forall (λ n, n ∈ allEncoderNames)
    (named (strings_Split (IncludeEncoders c) ",")) →
  ¬ Forall (λ n, n ∈ allEncoderNames)
      (named (strings_Split (ExcludeEncoders c) ",")) →
  ∃ n s', n ∈ named (strings_Split (ExcludeEncoders c) ",") ∧
          (n ∉ allEncoderNames) ∧
          resolve c s = Halt (ExitInvalidProto n) s'.
Proof.
  intros Hin Hbad. unfold resolve, mbind, M_bind.
  case_decide; simpl.
  - rewrite include_loop_known by done. simpl.
    by apply exclude_loop_unknown.
  - by apply exclude_loop_unknown.
Qed.


(** ** [Init] *)

Ltac run_Init :=
  unfold Init, CreateFile, emit, panic, mbind, M_bind, mret, M_ret; simpl.

Lemma Init_returns (d : LayerEncoder) (buffer compress csv : bool) (out : string)
    (writeChan : bool) (s : Pkg) :
  csv = true ∨ live_stream_conflict buffer compress writeChan = false →
  ∃ d', Init d buffer compress csv out writeChan s
        = Ok d' (with_events (sink_events d compress csv out writeChan) s) ∧
        initialised d d' buffer compress csv out writeChan.
Proof.
  intros Hok.
  destruct csv, buffer, compress, writeChan;
    try (destruct Hok as [Hok|Hok]; discriminate Hok);
    run_Init; eexists; (split; [reflexivity|]);
    unfold initialised; simpl; repeat split; intros; congruence.
Qed.

Lemma Init_panics (d : LayerEncoder) (buffer compress : bool) (out : string)
    (writeChan : bool) (s : Pkg) :
  live_stream_conflict buffer compress writeChan = true →
  Init d buffer compress false out writeChan s
  = Halt (PanicString
      "buffering or compression cannot be activated when running using writeChan") s.
Proof.
  intros Hc. unfold live_stream_conflict in Hc. unfold Init. simpl.
  by rewrite Hc.
Qed.

(** [Init] returns the same encoder whatever the state it runs in. *)
Lemma Init_Ok_inv (d d' : LayerEncoder) (buffer compress csv : bool)
    (out : string) (writeChan : bool) (s s' : Pkg) :
  Init d buffer compress csv out writeChan s = Ok d' s' →
  s' = with_events (sink_events d compress csv out writeChan) s ∧
  initialised d d' buffer compress csv out writeChan.
Proof.
  intros Hrun.
  destruct (decide (csv = true ∨
                    live_stream_conflict buffer compress writeChan = false))
    as [Hok|Hno].
  - destruct (Init_returns d buffer compress csv out writeChan s Hok)
      as (d'' & Hrun' & Hinit).
    rewrite Hrun in Hrun'. by inversion Hrun'; subst.
  - destruct csv; [destruct Hno; by left|].
    rewrite Init_panics in Hrun; [done|].
    destruct (live_stream_conflict buffer compress writeChan); [done|].
    destruct Hno. by right.
Qed.

(** ** [Encode] *)

Lemma Encode_no_record (d : LayerEncoder) (l : Layer) (timestamp : Time) (s : Pkg) :
  Handler d l (utils_TimeToString timestamp) = None →
  Encode d l timestamp s = Ok None s.
Proof. intros Hnone. unfold Encode. by rewrite Hnone. Qed.

(** A record is written with one call, whose error is what [Encode]
    returns. *)
Lemma Encode_record (d : LayerEncoder) (l : Layer) (timestamp : Time) (s : Pkg)
    (m : Message) (op : WriteOp) :
  Handler d l (utils_TimeToString timestamp) = Some m →
  record_write d m = Some op →
  Encode d l timestamp s
  = Ok (write_result (trace s) op)
       (with_events [EvWrite op (write_result (trace s) op)] s).
Proof.
  intros Hm Hop. unfold Encode, record_write in *. rewrite Hm.
  destruct (csv d).
  - destruct (csvWriter d) as [w|]; [|done]. inversion Hop; subst. simpl.
    unfold mbind, M_bind, do_write. simpl.
    by destruct (write_result (trace s) (csv_WriteRecord w m)).
  - destruct (aWriter d) as [w|]; [|done]. inversion Hop; subst. simpl.
    unfold mbind, M_bind, do_write. simpl.
    by destruct (write_result (trace s) (PutProto w m)).
Qed.

(** [Encode] only ever adds to the trace. *)
Lemma Encode_trace (d : LayerEncoder) (l : Layer) (timestamp : Time) (s : Pkg) :
  trace s `prefix_of` trace (state_of (Encode d l timestamp s)).
Proof.
  destruct (Handler d l (utils_TimeToString timestamp)) as [m|] eqn:Hm.
  - destruct (record_write d m) as [op|] eqn:Hop.
    + rewrite (Encode_record _ _ _ _ m op) by done. simpl. by apply prefix_app_r.
    + unfold Encode, record_write in *. rewrite Hm.
      destruct (csv d).
      * destruct (csvWriter d); [done|]. done.
      * destruct (aWriter d); [done|]. done.
  - by rewrite Encode_no_record.
Qed.

(** ** [Destroy] *)

Lemma Destroy_runs (d : LayerEncoder) (s : Pkg) :
  Destroy d s
  = Ok (CloseFile_result (trace s ++ closing_events d)
          (out d) (file d) (name_of d))
       (with_events
          (closing_events d ++ [EvCloseFile (out d) (file d) (name_of d)]) s).
Proof.
  unfold Destroy, closing_events, CloseGzipWriters, FlushWriters, CloseFile,
    emit, mbind, M_bind, mret, M_ret, with_events, with_event.
  destruct (compress d), (buffer d); simpl;
    rewrite <- ?app_assoc, ?app_nil_r; simpl; reflexivity.
Qed.


(** ** The loop that builds the encoders *)

Lemma Init_cases (d : LayerEncoder) (buffer compress csv : bool) (out : string)
    (writeChan : bool) (s : Pkg) :
  (∃ d', Init d buffer compress csv out writeChan s
         = Ok d' (with_events (sink_events d compress csv out writeChan) s) ∧
         initialised d d' buffer compress csv out writeChan) ∨
  (csv = false ∧ live_stream_conflict buffer compress writeChan = true ∧
   Init d buffer compress csv out writeChan s
   = Halt (PanicString
       "buffering or compression cannot be activated when running using writeChan") s).
Proof.
  destruct csv.
  - left. apply Init_returns. by left.
  - destruct (live_stream_conflict buffer compress writeChan) eqn:Hc.
    + right. split_and!; [done..|]. by apply Init_panics.
    + left. apply Init_returns. by right.
Qed.

Lemma initialised_header (c : Config) (d d' : LayerEncoder) (buf comp tab : bool)
    (dir : string) (live : bool) :
  initialised d d' buf comp tab dir live → is_Some (header_op c d').
Proof.
  intros (_ & _ & _ & _ & _ & Hcsv & _ & _ & _ & _ & Hw).
  unfold header_op. rewrite Hcsv. destruct tab; rewrite Hw; simpl; eauto.
Qed.

Lemma initialised_name (d d' : LayerEncoder) (buf comp tab : bool)
    (dir : string) (live : bool) :
  initialised d d' buf comp tab dir live → name_of d' = name_of d.
Proof. intros (HL & _). unfold name_of. by rewrite HL. Qed.

Lemma write_header_cases (c : Config) (e : LayerEncoder) (s : Pkg) :
  (∃ op, header_op c e = Some op ∧
         write_header c e s = Ok tt (with_events [EvWrite op None] s)) ∨
  (∃ op err, header_op c e = Some op ∧
             write_result (trace s) op = Some err ∧
             write_header c e s
             = Halt (PanicError err) (with_events [EvWrite op (Some err)] s)) ∨
  (header_op c e = None ∧ write_header c e s = Halt PanicNilPointer s).
Proof.
  unfold write_header, header_op, csvWriter_WriteHeader, aWriter_PutProto.
  destruct (csv e).
  - destruct (csvWriter e) as [w|]; simpl; [|by right; right].
    unfold mbind, M_bind, do_write. simpl.
    destruct (write_result (trace s) (csv_WriteHeader w _)) as [err|] eqn:Hr.
    + right; left. eauto.
    + left. eauto.
  - destruct (aWriter e) as [w|]; simpl; [|by right; right].
    unfold mbind, M_bind, do_write. simpl.
    destruct (write_result (trace s) (PutProto w _)) as [err|] eqn:Hr.
    + right; left. eauto.
    + left. eauto.
Qed.

Lemma init_loop_cons (c : Config) (i : nat) (e : LayerEncoder)
    (es : list LayerEncoder) (s : Pkg) :
  init_loop c i (e :: es) s
  = match Init e (Buffer c) (Compression c) (CSV c) (Out c) (WriteChan c) s with
    | Halt f s' => Halt f s'
    | Ok e' s1 =>
        match write_header c e'
                (with_slice (<[i := e']> (layerEncoderSlice s1)) s1) with
        | Halt f s' => Halt f s'
        | Ok _ s2 => init_loop c (S i) es (with_encoder (Layer_ e') e' s2)
        end
    end.
Proof.
  simpl. unfold mbind, M_bind.
  destruct (Init e _ _ _ _ _ s) as [e' s1|f s1]; [|done]. simpl.
  by destruct (write_header c e' _) as [[] s2|f s2].
Qed.


Lemma sink_events_name (d d' : LayerEncoder) (compress csv : bool) (out : string)
    (writeChan : bool) :
  name_of d' = name_of d →
  sink_events d' compress csv out writeChan
  = sink_events d compress csv out writeChan.
Proof. intros Hn. unfold sink_events. by rewrite Hn. Qed.

Lemma sink_events_no_write (d : LayerEncoder) (compress csv : bool) (out : string)
    (writeChan : bool) :
  Forall (λ ev, failed_write ev = None)
    (sink_events d compress csv out writeChan).
Proof.
  unfold sink_events. destruct (file_backed csv writeChan); by repeat constructor.
Qed.

(** A run of the loop that returns has built every encoder of the slice, in
    the order of the slice: the slice holds the built encoders, the registry
    has them, and the trace has, for each in turn, its sink and then its
    header. *)
Lemma init_loop_Ok (c : Config) (es : list LayerEncoder) :
  ∀ (done : list LayerEncoder) (s s' : Pkg),
    layerEncoderSlice s = done ++ es →
    init_loop c (length done) es s = Ok tt s' →
    ∃ es', layerEncoderSlice s' = done ++ es' ∧
           Forall2 (λ e e', initialised e e' (Buffer c) (Compression c) (CSV c)
                              (Out c) (WriteChan c)) es es' ∧
           trace s' = trace s ++ flat_map (init_events c) es' ∧
           LayerEncoders s' = registered es' (LayerEncoders s).
Proof.
  induction es as [|e es IH]; intros done s s' Hslice Hrun.
  - simpl in Hrun. inversion Hrun; subst s'. exists []. simpl.
    rewrite !app_nil_r in *. split_and!; [done|constructor|done|done].
  - rewrite init_loop_cons in Hrun.
    destruct (Init_cases e (Buffer c) (Compression c) (CSV c) (Out c)
                (WriteChan c) s) as [(e' & HI & Hinit)|(_ & _ & HI)];
      rewrite HI in Hrun; [|done].
    simpl in Hrun. rewrite Hslice in Hrun.
    rewrite insert_app_r_alt in Hrun by done.
    rewrite Nat.sub_diag in Hrun. simpl in Hrun.
    match type of Hrun with
    | context [write_header c e' ?s1] =>
        destruct (write_header_cases c e' s1)
          as [(op & Hop & Hw)|[(op & err & _ & _ & Hw)|(_ & Hw)]];
        rewrite Hw in Hrun; [|done..]
    end.
    replace (S (length done)) with (length (done ++ [e'])) in Hrun
      by (rewrite length_app; simpl; lia).
    apply (IH (done ++ [e'])) in Hrun as (es' & Hs' & Hall & Htr & Hreg).
    + exists (e' :: es'). split_and!.
      * by rewrite Hs', <- app_assoc.
      * by constructor.
      * rewrite Htr. simpl. unfold init_events at 2, header_events.
        rewrite Hop, (sink_events_name e e') by by eapply initialised_name.
        by rewrite <- !app_assoc.
      * by rewrite Hreg.
    + simpl. by rewrite <- app_assoc.
Qed.

(** Whatever the loop does, a write that failed is its last act, and the
    loop panics with the error of that write. *)
Lemma init_loop_failed (c : Config) (es : list LayerEncoder) :
  ∀ (i : nat) (s : Pkg),
    ∃ t, trace (state_of (init_loop c i es s)) = trace s ++ t ∧
         match init_loop c i es s with
         | Ok _ _ => Forall (λ ev, failed_write ev = None) t
         | Halt f _ =>
             ∀ ev err, ev ∈ t → failed_write ev = Some err → f = PanicError err
         end.
Proof.
  induction es as [|e es IH]; intros i s.
  - exists []. simpl. by rewrite app_nil_r.
  - rewrite init_loop_cons.
    destruct (Init_cases e (Buffer c) (Compression c) (CSV c) (Out c)
                (WriteChan c) s) as [(e' & HI & Hinit)|(_ & _ & HI)];
      rewrite HI.
    2: { exists []. simpl. rewrite app_nil_r. split; [done|].
         intros ev err Hin. by apply elem_of_nil in Hin. }
    pose proof (sink_events_no_write e (Compression c) (CSV c) (Out c)
                  (WriteChan c)) as Hsink.
    match goal with
    | |- context [write_header c e' ?s1] =>
        destruct (write_header_cases c e' s1)
          as [(op & Hop & Hw)|[(op & err & _ & _ & Hw)|(_ & Hw)]];
        rewrite Hw
    end.
    + match goal with
      | |- context [init_loop c (S i) es ?s3] =>
          destruct (IH (S i) s3) as (t & Htr & Hres);
          exists (sink_events e (Compression c) (CSV c) (Out c) (WriteChan c)
                  ++ [EvWrite op None] ++ t);
          destruct (init_loop c (S i) es s3) as [[] s4|f s4]
      end; simpl in *; rewrite Htr, <- !app_assoc; (split; [done|]).
      * apply Forall_app. split; [done|]. by constructor.
      * intros ev err Hin Hf.
        apply elem_of_app in Hin as [Hin|Hin].
        { rewrite Forall_forall in Hsink. rewrite (Hsink ev Hin) in Hf. done. }
        apply elem_of_cons in Hin as [->|Hin]; [done|]. by eapply Hres.
    + exists (sink_events e (Compression c) (CSV c) (Out c) (WriteChan c)
              ++ [EvWrite op (Some err)]).
      simpl. rewrite <- app_assoc. split; [done|].
      intros ev err' Hin Hf.
      apply elem_of_app in Hin as [Hin|Hin].
      { rewrite Forall_forall in Hsink. rewrite (Hsink ev Hin) in Hf. done. }
      apply list_elem_of_singleton in Hin as ->. simpl in Hf. congruence.
    + exists (sink_events e (Compression c) (CSV c) (Out c) (WriteChan c)).
      simpl. split; [done|].
      intros ev err' Hin Hf.
      rewrite Forall_forall in Hsink. rewrite (Hsink ev Hin) in Hf. done.
Qed.

Lemma InitLayerEncoders_unfold (c : Config) (s : Pkg) :
  InitLayerEncoders c s
  = match resolve c s with
    | Ok _ s1 => init_loop c 0 (layerEncoderSlice s1) s1
    | Halt f s1 => Halt f s1
    end.
Proof.
  unfold InitLayerEncoders, mbind, M_bind, get_layerEncoderSlice.
  by destruct (resolve c s) as [[] s1|f s1].
Qed.


(** ** [InitLayerEncoders] as a whole *)

Lemma fmap_filter_name (P : string → Prop) (Q : LayerEncoder → Prop)
    `{!∀ n, Decision (P n)} `{!∀ e, Decision (Q e)} (es : list LayerEncoder) :
  (∀ e, Q e ↔ P (name_of e)) →
  name_of <$> filter Q es = filter P (name_of <$> es).
Proof.
  intros HQ. induction es as [|e es IH]; [done|]. rewrite fmap_cons.
  destruct (decide (Q e)) as [Hq|Hq].
  - rewrite !filter_cons_True by (done || by apply HQ).
    by rewrite fmap_cons, IH.
  - rewrite !filter_cons_False by (done || by rewrite <- HQ). done.
Qed.

Lemma Resolve_spec_names (c : Config) (catalog : list LayerEncoder) :
  name_of <$> Resolve_spec c catalog = Resolve_names c (name_of <$> catalog).
Proof.
  unfold Resolve_spec, Resolve_names. cbv zeta.
  set (P := λ n, n ∉ named (strings_Split (ExcludeEncoders c) ",")).
  set (R := λ n, n ∈ named (strings_Split (IncludeEncoders c) ",")).
  case_decide.
  - by apply (fmap_filter_name P).
  - etrans; [by apply (fmap_filter_name P)|]. f_equal.
    by apply (fmap_filter_name R).
Qed.

Lemma initialised_names (c : Config) (es es' : list LayerEncoder) :
  Forall2 (λ e e', initialised e e' (Buffer c) (Compression c) (CSV c)
                     (Out c) (WriteChan c)) es es' →
  name_of <$> es' = name_of <$> es.
Proof.
  induction 1 as [|e e' es es' He _ IH]; [done|].
  rewrite !fmap_cons, IH. f_equal. by eapply initialised_name.
Qed.

(** A call that returns leaves in the package-level slice the encoders
    that the resolution selected, built. *)
Lemma InitLayerEncoders_Ok (c : Config) (s s' : Pkg) :
  InitLayerEncoders c s = Ok tt s' →
  ∃ s1, resolve c s = Ok tt s1 ∧
        Forall2 (λ e e', initialised e e' (Buffer c) (Compression c) (CSV c)
                           (Out c) (WriteChan c))
          (layerEncoderSlice s1) (layerEncoderSlice s') ∧
        trace s' = trace s ++ flat_map (init_events c) (layerEncoderSlice s') ∧
        LayerEncoders s'
        = registered (layerEncoderSlice s') (LayerEncoders s).
Proof.
  rewrite InitLayerEncoders_unfold. intros Hrun.
  pose proof (resolve_state c s) as [Htr Hreg].
  destruct (resolve c s) as [[] s1|f s1]; [|done]. simpl in Htr, Hreg.
  apply (init_loop_Ok c _ []) in Hrun as (es' & Hs' & Hall & Htr' & Hreg');
    [|done].
  simpl in Hs'. exists s1. rewrite Hs'. split_and!; [done|done|congruence..].
Qed.

Lemma InitLayerEncoders_active_set (c : Config) (s s' : Pkg) :
  names_known c → include_well_formed c →
  NoDup (name_of <$> layerEncoderSlice s) →
  InitLayerEncoders c s = Ok tt s' →
  name_of <$> layerEncoderSlice s'
  = Resolve_names c (name_of <$> layerEncoderSlice s).
Proof.
  intros Hk Hwf Hnd Hrun.
  apply InitLayerEncoders_Ok in Hrun as (s1 & Hres & Hall & _).
  rewrite resolve_known in Hres by done. inversion Hres; subst s1.
  simpl in Hall. rewrite (initialised_names c _ _ Hall).
  apply Resolve_spec_names.
Qed.

(** An unknown name stops the call before anything is built: the trace and
    the registry are as they were. *)
Lemma InitLayerEncoders_unknown (c : Config) (s : Pkg) :
  (strings_Split (IncludeEncoders c) "," !! 0 ≠ Some "" ∧
   ¬ Forall (λ n, n ∈ allEncoderNames)
       (named (strings_Split (IncludeEncoders c) ","))) ∨
  (Forall (λ n, n ∈ allEncoderNames)
     (named (strings_Split (IncludeEncoders c) ",")) ∧
   ¬ Forall (λ n, n ∈ allEncoderNames)
       (named (strings_Split (ExcludeEncoders c) ","))) →
  ∃ n s', (n ∉ allEncoderNames) ∧
          InitLayerEncoders c s = Halt (ExitInvalidProto n) s' ∧
          trace s' = trace s ∧ LayerEncoders s' = LayerEncoders s.
Proof.
  intros Hbad. rewrite InitLayerEncoders_unfold.
  pose proof (resolve_state c s) as [Htr Hreg].
  destruct Hbad as [[Hhead Hbad]|[Hin Hbad]].
  - destruct (resolve_unknown_include c s Hhead Hbad) as (n & _ & Hn & Hrun).
    rewrite Hrun in *. eauto 10.
  - destruct (resolve_unknown_exclude c s Hin Hbad) as (n & s' & _ & Hn & Hrun).
    rewrite Hrun in *. eauto 10.
Qed.

(** With binary output, the live stream and a buffer or a compressor, the
    call creates nothing: it stops, or there is no encoder to build. *)
Lemma InitLayerEncoders_live_stream (c : Config) (s : Pkg) :
  CSV c = false →
  live_stream_conflict (Buffer c) (Compression c) (WriteChan c) = true →
  trace (state_of (InitLayerEncoders c s)) = trace s ∧
  ∀ s', InitLayerEncoders c s = Ok tt s' → layerEncoderSlice s' = [].
Proof.
  intros Hcsv Hc. rewrite InitLayerEncoders_unfold.
  pose proof (resolve_state c s) as [Htr _].
  destruct (resolve c s) as [[] s1|f s1]; simpl in *; [|done].
  destruct (layerEncoderSlice s1) as [|e es] eqn:Hes.
  - simpl. split; [done|]. intros s' Hrun. by inversion Hrun; subst.
  - rewrite init_loop_cons, Hcsv, Init_panics by done. done.
Qed.


Lemma InitLayerEncoders_failed_write (c : Config) (s : Pkg) (t : list Event)
    (ev : Event) (err : Error) :
  trace (state_of (InitLayerEncoders c s)) = trace s ++ t →
  ev ∈ t → failed_write ev = Some err →
  InitLayerEncoders c s
  = Halt (PanicError err) (state_of (InitLayerEncoders c s)).
Proof.
  rewrite InitLayerEncoders_unfold.
  pose proof (resolve_state c s) as [Htr _].
  destruct (resolve c s) as [[] s1|f s1]; simpl in Htr.
  - destruct (init_loop_failed c (layerEncoderSlice s1) 0 s1) as (t0 & Ht0 & Hres).
    rewrite Htr in Ht0. intros Ht Hin Hf. rewrite Ht0 in Ht.
    apply app_inv_head in Ht. subst t0.
    destruct (init_loop c 0 (layerEncoderSlice s1) s1) as [[] s2|f s2]; simpl.
    + rewrite Forall_forall in Hres. rewrite (Hres ev Hin) in Hf. done.
    + by rewrite (Hres ev err Hin Hf).
  - simpl. intros Ht Hin. rewrite Htr in Ht.
    rewrite <- (app_nil_r (trace s)) in Ht at 1.
    apply app_inv_head in Ht. subst t. by apply elem_of_nil in Hin.
Qed.

Lemma initialised_record_write (d d' : LayerEncoder) (buf comp tab : bool)
    (dir : string) (live : bool) (m : Message) :
  initialised d d' buf comp tab dir live → is_Some (record_write d' m).
Proof.
  intros (_ & _ & _ & _ & _ & Hcsv & _ & _ & _ & _ & Hw).
  unfold record_write. rewrite Hcsv. destruct tab; rewrite Hw; simpl; eauto.
Qed.

(** For tabular output [Init] returns before the length-delimited and the
    atomic writer are made: those two fields keep the values they had. *)
Lemma Init_tabular_writers (d d' : LayerEncoder) (buffer compress : bool)
    (out : string) (writeChan : bool) (s s' : Pkg) :
  Init d buffer compress true out writeChan s = Ok d' s' →
  aWriter d' = aWriter d ∧ dWriter d' = dWriter d ∧ cWriter d' = cWriter d.
Proof.
  destruct buffer, compress; run_Init; intros Hrun; by inversion Hrun.
Qed.

(** * The claims *)

(** C3, as amended.  With binary output, a configuration that asks for the
    live stream together with a buffer or a compressor makes [Init] panic in
    the state it was called in, so before any file is created, and makes
    [InitLayerEncoders] create nothing: it stops, or it returns with no
    encoder to build.  With tabular output the live-stream flag is not looked
    at: [Init] returns and the sink file is created. *)
Theorem live_stream_rejected_for_binary_output (c : Config) (d : LayerEncoder)
    (s : Pkg) :
  WriteChan c = true → Buffer c || Compression c = true →
  (CSV c = false →
   Init d (Buffer c) (Compression c) false (Out c) true s
   = Halt (PanicString
       "buffering or compression cannot be activated when running using writeChan") s ∧
   trace (state_of (InitLayerEncoders c s)) = trace s ∧
   ∀ s', InitLayerEncoders c s = Ok tt s' → layerEncoderSlice s' = []) ∧
  (CSV c = true →
   ∃ d', Init d (Buffer c) (Compression c) true (Out c) true s
         = Ok d' (with_events
                    [EvCreateFile (filepath_Join (Out c) (name_of d))
                       (sink_ext true (Compression c))] s)).
Proof.
  intros Hlive Hbc.
  assert (live_stream_conflict (Buffer c) (Compression c) (WriteChan c) = true)
    as Hconflict.
  { unfold live_stream_conflict. rewrite Hlive. simpl.
    by destruct (Buffer c), (Compression c). }
  split.
  - intros Hcsv. split.
    + apply Init_panics. by rewrite Hlive in Hconflict.
    + by apply InitLayerEncoders_live_stream.
  - intros _.
    destruct (Init_returns d (Buffer c) (Compression c) true (Out c) true s)
      as (d' & Hrun & _); [by left|]. by exists d'.
Qed.

(** C5.  A call of [InitLayerEncoders] that returns has, for each active
    encoder in turn, created its sink and then written exactly one header to
    it, a column row for a tabular sink and a header record for a binary
    one, and nothing else; a header write that fails makes the call panic
    with the error of that write; and [Encode] only ever adds to the trace,
    so every data record comes after the header. *)
Theorem header_written_once_at_initialization (c : Config) (s : Pkg) :
  (∀ s', InitLayerEncoders c s = Ok tt s' →
         Forall (λ e, is_Some (header_op c e)) (layerEncoderSlice s') ∧
         trace s' = trace s ++ flat_map (init_events c) (layerEncoderSlice s')) ∧
  (∀ t ev err,
     trace (state_of (InitLayerEncoders c s)) = trace s ++ t →
     ev ∈ t → failed_write ev = Some err →
     InitLayerEncoders c s
     = Halt (PanicError err) (state_of (InitLayerEncoders c s))) ∧
  (∀ d l timestamp s0,
     trace s0 `prefix_of` trace (state_of (Encode d l timestamp s0))).
Proof.
  split_and!.
  - intros s' Hrun.
    apply InitLayerEncoders_Ok in Hrun as (s1 & _ & Hall & Htr & _).
    split; [|done].
    apply Forall_forall. intros e' He'.
    apply list_elem_of_lookup in He' as [i Hi].
    destruct (Forall2_lookup_r _ _ _ i e' Hall Hi) as (e & _ & Hinit).
    by eapply initialised_header.
  - apply InitLayerEncoders_failed_write.
  - intros d l timestamp s0. apply Encode_trace.
Qed.

(** C6.  When the handler gives no record for a layer, [Encode] returns a
    nil error and leaves the state, and with it the trace of writes, as it
    was. *)
Theorem Encode_not_applicable (d : LayerEncoder) (l : Layer) (timestamp : Time)
    (s : Pkg) :
  Handler d l (utils_TimeToString timestamp) = None →
  Encode d l timestamp s = Ok None s ∧
  trace (state_of (Encode d l timestamp s)) = trace s.
Proof. intros Hnone. by rewrite Encode_no_record. Qed.

(** C7.  When the write of a record fails, [Encode] returns normally with
    the error of the sink, after that one write and no other. *)
Theorem Encode_returns_write_error (d : LayerEncoder) (l : Layer)
    (timestamp : Time) (s : Pkg) (m : Message) (op : WriteOp) (err : Error) :
  Handler d l (utils_TimeToString timestamp) = Some m →
  record_write d m = Some op →
  write_result (trace s) op = Some err →
  Encode d l timestamp s
  = Ok (Some err) (with_events [EvWrite op (Some err)] s).
Proof.
  intros Hm Hop Herr. rewrite (Encode_record d l timestamp s m op) by done.
  by rewrite Herr.
Qed.

(** C8.  [Destroy] closes the compressor if compression is on, then flushes
    the buffer if buffering is on, then closes the file, in that order, and
    returns what [CloseFile] reports. *)
Theorem Destroy_order (d : LayerEncoder) (s : Pkg) :
  Destroy d s
  = Ok (CloseFile_result
          (trace s ++ closing_events d) (out d) (file d) (name_of d))
       (with_events
          (closing_events d ++ [EvCloseFile (out d) (file d) (name_of d)]) s) ∧
  closing_events d
  = (if compress d then [EvCloseGzipWriters (gWriter d)] else []) ++
    (if buffer d then [EvFlushWriters (bWriter d)] else []).
Proof. split; [apply Destroy_runs | done]. Qed.

(** C9.  When the sink is a file, [Init] creates the file named after the
    protocol in the output directory, with the extension .csv or .csv.gz
    for tabular output and .ncap or .ncap.gz for binary output, the .gz
    ones with compression. *)
Theorem sink_file_name (d : LayerEncoder) (buffer compress csv : bool)
    (out : string) (writeChan : bool) (s : Pkg) :
  file_backed csv writeChan = true →
  (∃ d', Init d buffer compress csv out writeChan s
         = Ok d' (with_events
                    [EvCreateFile (filepath_Join out (name_of d))
                       (sink_ext csv compress)] s) ∧
         file d' = Some (os_File (filepath_Join out (name_of d))
                           (sink_ext csv compress))) ∧
  sink_ext true false = ".csv" ∧ sink_ext true true = ".csv.gz" ∧
  sink_ext false false = ".ncap" ∧ sink_ext false true = ".ncap.gz".
Proof.
  intros Hfile. split; [|done].
  destruct (Init_returns d buffer compress csv out writeChan s)
    as (d' & Hrun & Hinit).
  { destruct csv; [by left|]. right. simpl in Hfile.
    unfold live_stream_conflict. by destruct writeChan. }
  exists d'. unfold sink_events in Hrun. rewrite Hfile in Hrun.
  split; [done|].
  destruct Hinit as (_ & _ & _ & _ & _ & _ & _ & Hf & _).
  by rewrite Hf, Hfile.
Qed.

(** C10.  [InitLayerEncoders] leaves the selection in the package-level
    slice, so a second call selects from what the first call left: its
    active set is the resolution of the second configuration applied to the
    resolution of the first, not to the catalog. *)
Theorem second_call_resolves_remnant (c1 c2 : Config) (s s1 s2 : Pkg) :
  names_known c1 → names_known c2 →
  include_well_formed c1 → include_well_formed c2 →
  NoDup (name_of <$> layerEncoderSlice s) →
  InitLayerEncoders c1 s = Ok tt s1 →
  InitLayerEncoders c2 s1 = Ok tt s2 →
  name_of <$> layerEncoderSlice s1
  = Resolve_names c1 (name_of <$> layerEncoderSlice s) ∧
  name_of <$> layerEncoderSlice s2
  = Resolve_names c2 (Resolve_names c1 (name_of <$> layerEncoderSlice s)).
Proof.
  intros Hk1 Hk2 Hwf1 Hwf2 Hnd Hrun1 Hrun2.
  pose proof (InitLayerEncoders_active_set c1 s s1 Hk1 Hwf1 Hnd Hrun1) as Hs1.
  split; [done|]. rewrite <- Hs1.
  apply InitLayerEncoders_active_set; [done..| |done].
  rewrite Hs1. unfold Resolve_names. apply NoDup_filter.
  case_decide; [done|]. by apply NoDup_filter.
Qed.


(** * Further properties *)

(** ** Resolution, whatever the lists hold *)

Lemma include_loop_Ok_inv (names : list string) (inMap inMap' : gmap string bool)
    (s s' : Pkg) :
  include_loop names inMap s = Ok inMap' s' →
  inMap' = mark inMap (named names) ∧ s' = s.
Proof.
  intros Hrun.
  destruct (decide (Forall (λ n, n ∈ allEncoderNames) (named names))) as [Hk|Hk].
  - rewrite include_loop_known in Hrun by done. by inversion Hrun.
  - destruct (include_loop_unknown names inMap s Hk) as (n & _ & _ & Hhalt).
    congruence.
Qed.

Lemma exclude_loop_Ok_inv (names : list string) (s s' : Pkg) :
  exclude_loop names s = Ok tt s' →
  s' = with_slice (excluded (named names) (layerEncoderSlice s)) s.
Proof.
  intros Hrun.
  destruct (decide (Forall (λ n, n ∈ allEncoderNames) (named names))) as [Hk|Hk].
  - rewrite exclude_loop_known in Hrun by done. by inversion Hrun.
  - destruct (exclude_loop_unknown names s Hk) as (n & s2 & _ & _ & Hhalt).
    congruence.
Qed.

Lemma resolve_Ok_inv (c : Config) (s s1 : Pkg) :
  resolve c s = Ok tt s1 →
  s1 = with_slice (resolved c (layerEncoderSlice s)) s.
Proof.
  unfold resolve, resolved, include_given, mbind, M_bind. intros Hrun.
  case_decide as Hg.
  - destruct (include_loop _ ∅ s) as [inMap s2|f s2] eqn:Hinc; [|done].
    apply include_loop_Ok_inv in Hinc as [-> ->]. simpl in Hrun.
    apply exclude_loop_Ok_inv in Hrun. rewrite Hrun. simpl.
    unfold with_slice. simpl. f_equal. f_equal.
    rewrite select_loop_filter, app_nil_l. apply list_filter_iff. intros e.
    rewrite mark_lookup, lookup_empty, is_Some_alt. tauto.
  - simpl in Hrun. by apply exclude_loop_Ok_inv in Hrun.
Qed.

Lemma resolved_sublist (c : Config) (es : list LayerEncoder) :
  resolved c es `sublist_of` es.
Proof.
  unfold resolved. etrans; [apply excluded_sublist|].
  case_decide; [apply sublist_filter | done].
Qed.

Lemma Resolve_names_idemp (c : Config) (ns : list string) :
  Resolve_names c (Resolve_names c ns) = Resolve_names c ns.
Proof.
  unfold Resolve_names. cbv zeta. case_decide.
  - rewrite list_filter_filter. apply list_filter_iff. tauto.
  - rewrite !list_filter_filter. apply list_filter_iff. tauto.
Qed.

(** X1.  When every name of both lists is known, the include list starts
    with a name or holds none, and the names of the slice are pairwise
    distinct, the resolution returns, and what it leaves in the slice is the
    slice restricted to the included names (all of it when none is included)
    with the excluded names taken out, in the order of the slice; the
    encoders that a call of [InitLayerEncoders] then builds carry these
    names. *)
Theorem resolution_as_specified (c : Config) (s : Pkg) :
  names_known c → include_well_formed c →
  NoDup (name_of <$> layerEncoderSlice s) →
  resolve c s = Ok tt (with_slice (Resolve_spec c (layerEncoderSlice s)) s) ∧
  ∀ s', InitLayerEncoders c s = Ok tt s' →
        name_of <$> layerEncoderSlice s'
        = name_of <$> Resolve_spec c (layerEncoderSlice s).
Proof.
  intros Hk Hwf Hnd. split; [by apply resolve_known|].
  intros s' Hrun. rewrite Resolve_spec_names.
  by apply InitLayerEncoders_active_set.
Qed.

(** X2.  An include list whose first entry is empty is not read at all: the
    resolution does what it does for the same configuration with no include
    list, and the names after the leading comma are neither checked nor
    used. *)
Theorem leading_empty_entry_drops_include_list (c : Config) (s : Pkg) :
  strings_Split (IncludeEncoders c) "," !! 0 = Some "" →
  resolve c s = resolve (without_include c) s.
Proof.
  intros Hhead. unfold resolve. simpl.
  rewrite decide_False by (intros [_ Hne]; by apply Hne).
  rewrite ?decide_False by (intros [_ Hne]; by apply Hne).
  done.
Qed.

(** X3.  An unknown name in an include list that starts with a name, or in
    the exclude list when the include list is accepted, stops
    [InitLayerEncoders] with the exit of [invalidProto]; nothing has been
    created or written and nothing registered. *)
Theorem unknown_name_stops_before_any_build (c : Config) (s : Pkg) :
  (strings_Split (IncludeEncoders c) "," !! 0 ≠ Some "" ∧
   ¬ Forall (λ n, n ∈ allEncoderNames)
       (named (strings_Split (IncludeEncoders c) ","))) ∨
  (Forall (λ n, n ∈ allEncoderNames)
     (named (strings_Split (IncludeEncoders c) ",")) ∧
   ¬ Forall (λ n, n ∈ allEncoderNames)
       (named (strings_Split (ExcludeEncoders c) ","))) →
  ∃ n s', (n ∉ allEncoderNames) ∧
          InitLayerEncoders c s = Halt (ExitInvalidProto n) s' ∧
          trace s' = trace s ∧ LayerEncoders s' = LayerEncoders s.
Proof. apply InitLayerEncoders_unknown. Qed.

(** X4.  Whatever the configuration, a call of [InitLayerEncoders] that
    returns has only taken encoders out of the slice: the names it leaves
    are a sublist of the names it found, so nothing is added, doubled or
    reordered. *)
Theorem active_set_is_sublist_of_slice (c : Config) (s s' : Pkg) :
  InitLayerEncoders c s = Ok tt s' →
  (name_of <$> layerEncoderSlice s') `sublist_of`
    (name_of <$> layerEncoderSlice s) ∧
  (length (layerEncoderSlice s') ≤ length (layerEncoderSlice s))%nat.
Proof.
  intros Hrun.
  apply InitLayerEncoders_Ok in Hrun as (s1 & Hres & Hall & _).
  pose proof (resolve_sublist c s s1 Hres) as Hsub.
  split.
  - rewrite (initialised_names c _ _ Hall). by apply fmap_sublist.
  - rewrite <- (Forall2_length _ _ _ Hall). by apply sublist_length.
Qed.

(** X5.  With pairwise distinct names in the slice, no excluded name is
    active after a call that returns, whatever the include list holds:
    exclusion wins over inclusion. *)
Theorem excluded_name_is_never_active (c : Config) (s s' : Pkg) (n : string) :
  NoDup (name_of <$> layerEncoderSlice s) →
  InitLayerEncoders c s = Ok tt s' →
  n ∈ named (strings_Split (ExcludeEncoders c) ",") →
  n ∉ name_of <$> layerEncoderSlice s'.
Proof.
  intros Hnd Hrun Hn.
  apply InitLayerEncoders_Ok in Hrun as (s1 & Hres & Hall & _).
  rewrite (initialised_names c _ _ Hall).
  apply resolve_Ok_inv in Hres. subst s1. simpl. unfold resolved.
  rewrite excluded_filter.
  - intros Hin. apply list_elem_of_fmap in Hin as (e & -> & He).
    apply list_elem_of_filter in He as [Hne _]. by apply Hne.
  - eapply sublist_NoDup; [exact Hnd|]. apply fmap_sublist.
    case_decide; [apply sublist_filter | done].
Qed.

(** X6.  Calling [InitLayerEncoders] a second time with the same
    configuration selects the same names again: on the names, the
    resolution is idempotent. *)
Theorem same_configuration_twice (c : Config) (s s1 s2 : Pkg) :
  names_known c → include_well_formed c →
  NoDup (name_of <$> layerEncoderSlice s) →
  InitLayerEncoders c s = Ok tt s1 →
  InitLayerEncoders c s1 = Ok tt s2 →
  name_of <$> layerEncoderSlice s2 = name_of <$> layerEncoderSlice s1.
Proof.
  intros Hk Hwf Hnd Hrun1 Hrun2.
  pose proof (InitLayerEncoders_active_set c s s1 Hk Hwf Hnd Hrun1) as Hs1.
  assert (NoDup (name_of <$> layerEncoderSlice s1)) as Hnd1.
  { rewrite Hs1. unfold Resolve_names. apply NoDup_filter.
    case_decide; [done|]. by apply NoDup_filter. }
  rewrite (InitLayerEncoders_active_set c s1 s2 Hk Hwf Hnd1 Hrun2), Hs1.
  apply Resolve_names_idemp.
Qed.


(** ** The registry *)

Lemma registered_lookup_ne (es : list LayerEncoder)
    (m : gmap LayerType LayerEncoder) (k : LayerType) :
  k ∉ Layer_ <$> es → registered es m !! k = m !! k.
Proof.
  revert m. induction es as [|e es IH]; intros m Hk; [done|].
  rewrite fmap_cons, not_elem_of_cons in Hk. destruct Hk as [Hne Hk].
  simpl. rewrite IH by done. by rewrite lookup_insert_ne.
Qed.

Lemma registered_lookup (es : list LayerEncoder)
    (m : gmap LayerType LayerEncoder) (e : LayerEncoder) :
  NoDup (Layer_ <$> es) → e ∈ es → registered es m !! Layer_ e = Some e.
Proof.
  revert m. induction es as [|e0 es IH]; intros m Hnd He.
  - by apply elem_of_nil in He.
  - rewrite fmap_cons in Hnd. apply NoDup_cons in Hnd as [Hnot Hnd].
    apply elem_of_cons in He as [->|He]; simpl.
    + rewrite registered_lookup_ne by done. by rewrite lookup_insert_eq.
    + by apply IH.
Qed.

(** X7.  After a call of [InitLayerEncoders] that returns, the registry
    gives, for the layer type of each active encoder, that encoder as built
    (the layer types being pairwise distinct); every other key is as it
    was before the call, so encoders registered by an earlier call stay
    registered. *)
Theorem registry_after_initialization (c : Config) (s s' : Pkg) :
  InitLayerEncoders c s = Ok tt s' →
  (NoDup (Layer_ <$> layerEncoderSlice s') →
   ∀ e, e ∈ layerEncoderSlice s' → LayerEncoders s' !! Layer_ e = Some e) ∧
  (∀ k, k ∉ Layer_ <$> layerEncoderSlice s' →
        LayerEncoders s' !! k = LayerEncoders s !! k).
Proof.
  intros Hrun. apply InitLayerEncoders_Ok in Hrun as (s1 & _ & _ & _ & Hreg).
  rewrite Hreg. split.
  - intros Hnd e He. by apply registered_lookup.
  - intros k Hk. by apply registered_lookup_ne.
Qed.

(** ** The writers of a built encoder *)

Ltac Init_cases_in Hrun :=
  unfold Init, CreateFile, emit, panic, mbind, M_bind, mret, M_ret in Hrun;
  simpl in Hrun; inversion Hrun; subst; clear Hrun.

(** X8.  For a sink that is a file, [Init] stacks the writers in one order:
    the buffer, if asked for, is put on the file, the compressor, if asked
    for, on top of that, and the tabular writer, or the length-delimited
    writer inside the atomic writer, on top of the whole. *)
Theorem Init_writer_stack (d d' : LayerEncoder) (buffer compress csv : bool)
    (out : string) (writeChan : bool) (s s' : Pkg) :
  Init d buffer compress csv out writeChan s = Ok d' s' →
  file_backed csv writeChan = true →
  let f := os_File (filepath_Join out (name_of d)) (sink_ext csv compress) in
  let b := bufio_NewWriterSize (w_file (Some f)) BlockSize in
  let under := if buffer then b else w_file (Some f) in
  let top := if compress then gzip_NewWriter under else under in
  file d' = Some f ∧
  (buffer = true → bWriter d' = Some b) ∧
  (compress = true → gWriter d' = Some (gzip_NewWriter under)) ∧
  (csv = true → csvWriter d' = Some (NewCSVWriter top)) ∧
  (csv = false →
   dWriter d' = Some (delimited_NewWriter top) ∧
   aWriter d' = Some (NewAtomicDelimitedWriter (Some (delimited_NewWriter top)))).
Proof.
  intros Hrun Hfile.
  destruct csv, buffer, compress, writeChan; try discriminate Hfile;
    Init_cases_in Hrun; simpl; split_and!; intros; (done || congruence).
Qed.

(** X9.  With binary output and the live stream, a call of
    [InitLayerEncoders] that returns has created no file: for each active
    encoder it has made one channel writer and written the header through
    the atomic writer over the length-delimited writer over that channel. *)
Theorem live_stream_creates_no_file (c : Config) (s s' : Pkg) :
  CSV c = false → WriteChan c = true →
  InitLayerEncoders c s = Ok tt s' →
  trace s'
  = trace s
    ++ flat_map
         (λ e, [EvNewChanWriter;
                EvWrite (PutProto
                           (NewAtomicDelimitedWriter
                              (Some (delimited_NewWriter newChanWriter)))
                           (NewHeader (Type_ e) c)) None])
         (layerEncoderSlice s').
Proof.
  intros Hcsv Hlive Hrun.
  destruct (live_stream_conflict (Buffer c) (Compression c) (WriteChan c))
    eqn:Hconflict.
  - pose proof (InitLayerEncoders_live_stream c s Hcsv Hconflict) as [Htr Hnil].
    rewrite (Hnil s' Hrun). rewrite Hrun in Htr. simpl in *.
    by rewrite app_nil_r.
  - apply InitLayerEncoders_Ok in Hrun as (s1 & _ & Hall & Htr & _).
    rewrite Htr. f_equal.
    assert (Buffer c = false ∧ Compression c = false) as [Hb Hz].
    { unfold live_stream_conflict in Hconflict. rewrite Hlive in Hconflict.
      by destruct (Buffer c), (Compression c). }
    rewrite Hcsv, Hlive, Hb, Hz in Hall.
    clear Htr. induction Hall as [|e e' es es' He _ IH]; [done|].
    simpl. rewrite IH. f_equal.
    destruct He as (_ & _ & _ & _ & _ & Hc & _ & _ & _ & _ & Hw).
    unfold init_events, header_events, header_op, sink_events.
    rewrite Hcsv, Hlive, Hc, Hw. done.
Qed.

(** ** [Destroy], [Encode] and [GetChan] on a built encoder *)

(** X10.  [Destroy] of an encoder that [Init] built for a file undoes the
    stack from the top: it closes the compressor that [Init] put on the
    buffer (or on the file), then flushes the buffer that [Init] put on the
    file, then closes the file that [Init] created. *)
Theorem Destroy_after_Init (d d' : LayerEncoder) (buffer compress csv : bool)
    (out : string) (writeChan : bool) (s s' s2 : Pkg) :
  Init d buffer compress csv out writeChan s = Ok d' s' →
  file_backed csv writeChan = true →
  let f := os_File (filepath_Join out (name_of d)) (sink_ext csv compress) in
  let b := bufio_NewWriterSize (w_file (Some f)) BlockSize in
  let under := if buffer then b else w_file (Some f) in
  trace (state_of (Destroy d' s2))
  = trace s2
    ++ (if compress then [EvCloseGzipWriters (Some (gzip_NewWriter under))]
        else [])
    ++ (if buffer then [EvFlushWriters (Some b)] else [])
    ++ [EvCloseFile out (Some f) (name_of d)].
Proof.
  intros Hrun Hfile. rewrite Destroy_runs. simpl. unfold closing_events.
  destruct csv, buffer, compress, writeChan; try discriminate Hfile;
    Init_cases_in Hrun; simpl; by rewrite <- ?app_assoc.
Qed.

(** X11.  For the live stream [Init] creates no file and leaves the file
    field alone, so [Destroy] of a live-stream encoder that was made by
    [CreateLayerEncoder] does one thing: it calls [CloseFile] with a nil
    file. *)
Theorem Destroy_live_stream_closes_nil_file (nt : types_Type) (lt : LayerType)
    (handler : LayerEncoderHandler) (buffer compress : bool) (out : string)
    (d' : LayerEncoder) (s s' s2 : Pkg) :
  Init (CreateLayerEncoder nt lt handler) buffer compress false out true s
  = Ok d' s' →
  trace s' = trace s ++ [EvNewChanWriter] ∧
  trace (state_of (Destroy d' s2))
  = trace s2 ++ [EvCloseFile out None (LayerType_String lt)].
Proof.
  intros Hrun. rewrite Destroy_runs. simpl. unfold closing_events.
  destruct buffer, compress; Init_cases_in Hrun; simpl; by rewrite ?app_nil_r.
Qed.

(** X12.  [Encode] on an encoder that [Init] built never panics.  A layer
    without a record leaves the state as it is; a layer with a record is
    written with one call, [WriteRecord] on the tabular writer or [PutProto]
    on the atomic writer, and [Encode] returns what that call returns. *)
Theorem Encode_on_built_encoder (d d' : LayerEncoder)
    (buffer compress csv : bool) (out : string) (writeChan : bool)
    (s s' s2 : Pkg) (l : Layer) (timestamp : Time) :
  Init d buffer compress csv out writeChan s = Ok d' s' →
  match Handler d l (utils_TimeToString timestamp) with
  | None => Encode d' l timestamp s2 = Ok None s2
  | Some m =>
      ∃ op, (if csv then ∃ w, csvWriter d' = Some w ∧ op = csv_WriteRecord w m
             else ∃ w, aWriter d' = Some w ∧ op = PutProto w m) ∧
            Encode d' l timestamp s2
            = Ok (write_result (trace s2) op)
                 (with_events [EvWrite op (write_result (trace s2) op)] s2)
  end.
Proof.
  intros Hrun. apply Init_Ok_inv in Hrun as [_ Hinit].
  pose proof Hinit as (_ & _ & Hh & _ & _ & Hc & _ & _ & _ & _ & Hw).
  rewrite <- Hh.
  destruct (Handler d' l (utils_TimeToString timestamp)) as [m|] eqn:Hm.
  - destruct (initialised_record_write d d' _ _ _ _ _ m Hinit) as [op Hop].
    exists op. split; [|by apply (Encode_record d' l timestamp s2 m op)].
    unfold record_write in Hop. rewrite Hc in Hop.
    destruct csv; rewrite Hw in Hop; simpl in Hop; inversion Hop; eauto.
  - by apply Encode_no_record.
Qed.

(** X13.  [Encode], [Destroy] and [GetChan] leave the package-level slice
    and the registry as they are, whatever they return: an encoder stays
    registered after its [Destroy]. *)
Theorem package_variables_kept (d : LayerEncoder) (l : Layer) (timestamp : Time)
    (s : Pkg) :
  (layerEncoderSlice (state_of (Encode d l timestamp s)) = layerEncoderSlice s ∧
   LayerEncoders (state_of (Encode d l timestamp s)) = LayerEncoders s) ∧
  (layerEncoderSlice (state_of (Destroy d s)) = layerEncoderSlice s ∧
   LayerEncoders (state_of (Destroy d s)) = LayerEncoders s) ∧
  (layerEncoderSlice (state_of (GetChan d s)) = layerEncoderSlice s ∧
   LayerEncoders (state_of (GetChan d s)) = LayerEncoders s).
Proof.
  split_and!; try by rewrite Destroy_runs.
  all: try (unfold GetChan; by destruct (cWriter d)).
  all: unfold Encode, csvWriter_WriteRecord, aWriter_PutProto, do_write,
         mbind, M_bind;
       destruct (Handler d l (utils_TimeToString timestamp)); [|done];
       destruct (csv d);
       [destruct (csvWriter d) as [w|]; [|done]
       |destruct (aWriter d) as [w|]; [|done]];
       simpl; by destruct (write_result _ _).
Qed.

(** X14.  On an encoder made by [CreateLayerEncoder] and built by [Init],
    the channel writer is set exactly when the output is binary and the live
    stream was asked for, and [GetChan] then returns its channel; for
    tabular output no channel writer is made, whatever the live-stream flag
    says, and [GetChan] calls [Chan] through the nil pointer. *)
Theorem GetChan_after_Init (nt : types_Type) (lt : LayerType)
    (handler : LayerEncoderHandler) (buffer compress csv : bool) (out : string)
    (writeChan : bool) (d' : LayerEncoder) (s s' s2 : Pkg) :
  Init (CreateLayerEncoder nt lt handler) buffer compress csv out writeChan s
  = Ok d' s' →
  cWriter d' = (if negb csv && writeChan then Some newChanWriter else None) ∧
  GetChan d' s2
  = if negb csv && writeChan then Ok newChanWriter s2
    else Halt PanicNilPointer s2.
Proof.
  intros Hrun.
  destruct csv, buffer, compress, writeChan; Init_cases_in Hrun; done.
Qed.


(** ** A run of [Encode] calls *)

(** X15.  The records of a run of [Encode] calls on a built encoder reach
    the sink in the order of the calls, one write for each layer that has a
    record and none for the others; the run goes on after a write that
    failed, and gives one result for each call. *)
Theorem records_written_in_call_order (d d' : LayerEncoder)
    (buffer compress csv : bool) (out : string) (writeChan : bool)
    (s s' : Pkg) (inputs : list (Layer * Time)) (s2 : Pkg) :
  Init d buffer compress csv out writeChan s = Ok d' s' →
  ∃ errs s3 t,
    Encode_each d' inputs s2 = Ok errs s3 ∧
    length errs = length inputs ∧
    trace s3 = trace s2 ++ t ∧
    event_op <$> t
    = Some <$> omap (λ i, Handler d' i.1 (utils_TimeToString i.2)
                          ≫= record_write d') inputs.
Proof.
  intros Hrun. apply Init_Ok_inv in Hrun as [_ Hinit].
  revert s2. induction inputs as [|[l timestamp] inputs IH]; intros s2.
  - exists [], s2, []. simpl. by rewrite app_nil_r.
  - simpl. unfold mbind at 1, M_bind at 1.
    destruct (Handler d' l (utils_TimeToString timestamp)) as [m|] eqn:Hm.
    + destruct (initialised_record_write d d' _ _ _ _ _ m Hinit) as [op Hop].
      rewrite (Encode_record d' l timestamp s2 m op) by done.
      destruct (IH (with_events [EvWrite op (write_result (trace s2) op)] s2))
        as (errs & s3 & t & Hrest & Hlen & Htr & Hops).
      unfold mbind, M_bind. rewrite Hrest. simpl.
      exists (write_result (trace s2) op :: errs), s3,
        (EvWrite op (write_result (trace s2) op) :: t).
      split_and!; [done|by simpl; rewrite Hlen| |].
      * rewrite Htr. simpl. by rewrite <- app_assoc.
      * simpl. rewrite Hop. simpl. f_equal. exact Hops.
    + rewrite Encode_no_record by done.
      destruct (IH s2) as (errs & s3 & t & Hrest & Hlen & Htr & Hops).
      unfold mbind, M_bind. rewrite Hrest. simpl.
      exists (None :: errs), s3, t.
      split_and!; [done|by simpl; rewrite Hlen|done|done].
Qed.

(** ** The include and exclude lists as strings *)

Lemma strings_Split_nonempty (s : string) (sep : Ascii.ascii) :
  strings_Split s sep ≠ [].
Proof.
  destruct s as [|ch rest]; simpl; [done|].
  destruct (Ascii.eqb ch sep); [done|]. by destruct (strings_Split rest sep).
Qed.

Lemma strings_Split_head (s : string) (sep : Ascii.ascii) :
  strings_Split s sep !! 0 = Some "" ↔ s = "" ∨ ∃ rest, s = String sep rest.
Proof.
  destruct s as [|ch rest]; simpl; [by split; auto|].
  destruct (Ascii.eqb ch sep) eqn:Hch.
  - apply Ascii.eqb_eq in Hch. subst ch. split; [by right; eexists|done].
  - assert (ch ≠ sep) as Hne by (by apply Ascii.eqb_neq).
    destruct (strings_Split rest sep); simpl;
      (split; [done|intros [?|[? ?]]; congruence]).
Qed.

(** X16.  Whether the include list is read is decided by the first character
    of the include string alone: the list always has an entry, so the guard
    of line 128 holds exactly when the string is not empty and does not
    start with a comma; when it fails, the resolution is the exclude loop
    and nothing else. *)
Theorem include_list_read_by_first_character (c : Config) (s : Pkg) :
  (include_given c ↔
   ∃ ch rest, IncludeEncoders c = String ch rest ∧ ch ≠ ","%char) ∧
  (¬ include_given c →
   resolve c s = exclude_loop (strings_Split (ExcludeEncoders c) ",") s).
Proof.
  split.
  - unfold include_given. rewrite strings_Split_head.
    pose proof (strings_Split_nonempty (IncludeEncoders c) ",") as Hne.
    destruct (IncludeEncoders c) as [|ch rest] eqn:Hs.
    + split; [intros [_ Hno]; by destruct Hno; left|by intros (? & ? & ? & _)].
    + split.
      * intros [_ Hno]. exists ch, rest. split; [done|].
        intros ->. apply Hno. right. by eexists.
      * intros (ch' & rest' & Heq & Hch). split.
        -- destruct (strings_Split (String ch rest) ","); simpl; [done|lia].
        -- intros [?|[rest2 Heq2]]; congruence.
  - intros Hno. unfold resolve, include_given in *. simpl.
    by rewrite decide_False.
Qed.


(** ** The splice of the exclude loop *)

(** X17.  Taking a name out of the slice removes the first encoder of that
    name and no other, keeping the rest in order; a name that no encoder of
    the slice carries leaves the slice as it is. *)
Theorem remove_encoder_first_match (name : string) (es : list LayerEncoder) :
  (name ∉ name_of <$> es → remove_encoder name es = es) ∧
  (name ∈ name_of <$> es →
   ∃ before e after,
     es = before ++ e :: after ∧ name_of e = name ∧
     (name ∉ name_of <$> before) ∧
     remove_encoder name es = before ++ after).
Proof.
  induction es as [|e es [IHno IHyes]]; split.
  - done.
  - intros Hin. by apply elem_of_nil in Hin.
  - intros Hno. rewrite fmap_cons, not_elem_of_cons in Hno.
    destruct Hno as [Hne Hno]. rewrite remove_encoder_cons.
    case_decide; [done|]. by rewrite IHno.
  - intros Hin. rewrite remove_encoder_cons. case_decide as Hn.
    + exists [], e, es. split_and!; [done|done|apply not_elem_of_nil|done].
    + rewrite fmap_cons in Hin. apply elem_of_cons in Hin as [Heq|Hin]; [done|].
      destruct (IHyes Hin) as (before & e' & after & -> & He' & Hb & Hrem).
      exists (e :: before), e', after. split_and!; [done|done| |].
      * rewrite fmap_cons, not_elem_of_cons. split; [done|done].
      * by rewrite Hrem.
Qed.

(** ** How a call can end *)

Lemma resolve_names_known (c : Config) (s : Pkg) :
  names_known c → ∃ s1, resolve c s = Ok tt s1.
Proof.
  intros [Hin Hex]. unfold resolve, mbind, M_bind. case_decide; simpl.
  - rewrite include_loop_known by done. simpl.
    rewrite exclude_loop_known by done. eauto.
  - rewrite exclude_loop_known by done. eauto.
Qed.

Lemma resolve_Halt_inv (c : Config) (s s' : Pkg) (f : Fatal) :
  resolve c s = Halt f s' →
  ∃ n, f = ExitInvalidProto n ∧ n ∉ allEncoderNames.
Proof.
  unfold resolve, mbind, M_bind. intros Hrun.
  assert (∀ s0 f0 s1,
            exclude_loop (strings_Split (ExcludeEncoders c) ",") s0
            = Halt f0 s1 →
            ∃ n, f0 = ExitInvalidProto n ∧ n ∉ allEncoderNames) as Hexclude.
  { intros s0 f0 s1 Hex.
    destruct (decide (Forall (λ n, n ∈ allEncoderNames)
                (named (strings_Split (ExcludeEncoders c) ",")))) as [Hk|Hk].
    - by rewrite exclude_loop_known in Hex.
    - destruct (exclude_loop_unknown _ s0 Hk) as (n & s2 & _ & Hn & Hhalt).
      exists n. split; [congruence|done]. }
  case_decide; simpl in Hrun; [|by eapply Hexclude].
  destruct (decide (Forall (λ n, n ∈ allEncoderNames)
              (named (strings_Split (IncludeEncoders c) ",")))) as [Hk|Hk].
  - rewrite include_loop_known in Hrun by done. simpl in Hrun.
    by eapply Hexclude.
  - destruct (include_loop_unknown _ ∅ s Hk) as (n & _ & Hn & Hhalt).
    rewrite Hhalt in Hrun. exists n. split; [congruence|done].
Qed.

Lemma init_loop_Halt_inv (c : Config) (es : list LayerEncoder) :
  ∀ (i : nat) (s s' : Pkg) (f : Fatal),
    init_loop c i es s = Halt f s' →
    (f = PanicString
           "buffering or compression cannot be activated when running using writeChan" ∧
     CSV c = false ∧
     live_stream_conflict (Buffer c) (Compression c) (WriteChan c) = true) ∨
    (∃ err, f = PanicError err).
Proof.
  induction es as [|e es IH]; intros i s s' f Hrun; [done|].
  rewrite init_loop_cons in Hrun.
  destruct (Init_cases e (Buffer c) (Compression c) (CSV c) (Out c)
              (WriteChan c) s) as [(e' & HI & Hinit)|(Hcsv & Hc & HI)];
    rewrite HI in Hrun.
  - match type of Hrun with
    | context [write_header c e' ?s1] =>
        destruct (write_header_cases c e' s1)
          as [(op & Hop & Hw)|[(op & err & _ & _ & Hw)|(Hnone & Hw)]];
        rewrite Hw in Hrun
    end.
    + by eapply IH.
    + right. exists err. congruence.
    + destruct (initialised_header c _ _ _ _ _ _ _ Hinit) as [op Hop].
      congruence.
  - left. split_and!; [congruence|done|done].
Qed.

Lemma init_loop_returns (c : Config) (es : list LayerEncoder) :
  (∀ t op, write_result t op = None) →
  CSV c = true ∨
  live_stream_conflict (Buffer c) (Compression c) (WriteChan c) = false →
  ∀ (i : nat) (s : Pkg), ∃ s', init_loop c i es s = Ok tt s'.
Proof.
  intros Hwrites Hflags. induction es as [|e es IH]; intros i s; [by eexists|].
  rewrite init_loop_cons.
  destruct (Init_returns e (Buffer c) (Compression c) (CSV c) (Out c)
              (WriteChan c) s Hflags) as (e' & HI & Hinit).
  rewrite HI.
  match goal with
  | |- context [write_header c e' ?s1] =>
      destruct (write_header_cases c e' s1)
        as [(op & Hop & Hw)|[(op & err & _ & Herr & Hw)|(Hnone & Hw)]];
      rewrite Hw
  end.
  - apply IH.
  - by rewrite Hwrites in Herr.
  - destruct (initialised_header c _ _ _ _ _ _ _ Hinit) as [op Hop]. congruence.
Qed.

(** X18.  When every name of the lists is known, the flags do not ask for
    the live stream together with a buffer or a compressor (or the output is
    tabular), and the sinks take every header, [InitLayerEncoders]
    returns. *)
Theorem InitLayerEncoders_returns (c : Config) (s : Pkg) :
  (∀ t op, write_result t op = None) →
  names_known c →
  CSV c = true ∨
  live_stream_conflict (Buffer c) (Compression c) (WriteChan c) = false →
  ∃ s', InitLayerEncoders c s = Ok tt s'.
Proof.
  intros Hwrites Hk Hflags. rewrite InitLayerEncoders_unfold.
  destruct (resolve_names_known c s Hk) as [s1 ->].
  by apply init_loop_returns.
Qed.

(** X19.  [InitLayerEncoders] can stop in three ways and no other: the exit
    of [invalidProto] on a name that is not known, the panic of [Init] on
    the live stream asked for with a buffer or a compressor for binary
    output, and the panic on the error of a header write.  It never calls a
    writer through a nil pointer. *)
Theorem InitLayerEncoders_stops (c : Config) (s s' : Pkg) (f : Fatal) :
  InitLayerEncoders c s = Halt f s' →
  (∃ n, f = ExitInvalidProto n ∧ n ∉ allEncoderNames) ∨
  (f = PanicString
         "buffering or compression cannot be activated when running using writeChan" ∧
   CSV c = false ∧
   live_stream_conflict (Buffer c) (Compression c) (WriteChan c) = true) ∨
  (∃ err, f = PanicError err).
Proof.
  rewrite InitLayerEncoders_unfold. intros Hrun.
  destruct (resolve c s) as [[] s1|f1 s1] eqn:Hres.
  - right. by eapply init_loop_Halt_inv.
  - left. inversion Hrun; subst. by eapply resolve_Halt_inv.
Qed.

End Encoder.

(** * An instance: the catalog of the package *)

Module Concrete.

(** Layer types and record types are stood for by their names, layers and
    messages by their text, errors by their message. *)
Definition Enc : Type := @LayerEncoder string string string string.
Definition State : Type := @Pkg string _ _ string string string string.
Definition Outcome : Type := @Result string _ _ string string string string unit.

Definition LayerType_String (lt : string) : string := lt.
Definition utils_TimeToString (t : string) : string := t.
Definition netcap_InitRecord (t : string) : string := "header " +:+ t.
Definition NewHeader (t : string) (c : Config) : string := "header " +:+ t.
Definition filepath_Join (dir name : string) : string := dir +:+ "/" +:+ name.
Definition BlockSize : Z := 4096.

(** A handler that has no record for an empty layer. *)
Definition handler (l : string) (timestamp : string) : option string :=
  if decide (l = "") then None else Some (timestamp +:+ " " +:+ l).

(** Modelled from the spec: the encoder descriptors [TCPEncoder],
    [UDPEncoder] and the others are declared in files that are not part of
    this development; each is taken to be [CreateLayerEncoder] of the layer
    type whose name it carries (the spec's examples: TCP, UDP, IPv4, DNS,
    ARP). *)
Definition encoder (name : string) : Enc := CreateLayerEncoder name name handler.

(** The names of [layerEncoderSlice], lines 40 to 70, in order. *)
Definition catalog_names : list string :=
  [ "TCP"; "UDP"; "IPv4"; "IPv6"; "DHCPv4"; "DHCPv6"; "ICMPv4"; "ICMPv6";
    "ICMPv6Echo"; "ICMPv6NeighborSolicitation"; "ICMPv6RouterSolicitation";
    "DNS"; "ARP"; "Ethernet"; "Dot1Q"; "Dot11"; "NTP"; "SIP"; "IGMP"; "LLC";
    "IPv6HopByHop"; "SCTP"; "SNAP"; "LinkLayerDiscovery";
    "ICMPv6NeighborAdvertisement"; "ICMPv6RouterAdvertisement"; "EthernetCTP";
    "EthernetCTPReply"; "LinkLayerDiscoveryInfo" ].

Definition catalog : list Enc := encoder <$> catalog_names.

(** Modelled from the spec: [allEncoderNames] is not in this file; the
    names are validated "against the catalog". *)
Definition allEncoderNames : gset string := list_to_set catalog_names.

(** Two environments: every write succeeds, every write fails. *)
Definition writes_succeed (t : list (@Event string string)) (op : @WriteOp string)
    : option string := None.
Definition writes_fail (t : list (@Event string string)) (op : @WriteOp string)
    : option string := Some "no space left on device".

(** The package as it is loaded. *)
Definition loaded : State :=
  {| layerEncoderSlice := catalog; LayerEncoders := ∅; trace := [] |}.

Definition config (include exclude : string) (buffer compress tabular live : bool)
    : Config :=
  {| IncludeEncoders := include; ExcludeEncoders := exclude;
     Buffer := buffer; Compression := compress; CSV := tabular;
     Out := "out"; WriteChan := live |}.

Definition run (c : Config) (s : State) : Outcome :=
  InitLayerEncoders LayerType_String netcap_InitRecord NewHeader filepath_Join
    BlockSize allEncoderNames writes_succeed c s.
Definition run_failing (c : Config) (s : State) : Outcome :=
  InitLayerEncoders LayerType_String netcap_InitRecord NewHeader filepath_Join
    BlockSize allEncoderNames writes_fail c s.

(** The names of the encoders in the package-level slice. *)
Definition active (s : State) : list string :=
  name_of LayerType_String <$> layerEncoderSlice s.

Definition returned (r : Outcome) : bool :=
  match r with Ok _ _ => true | Halt _ _ => false end.


(** The configurations used below. *)
Definition include_leading_comma : Config :=
  config ",TCP" "" false false false false.
Definition include_leading_comma_unknown : Config :=
  config ",BOGUS" "" false false false false.
Definition tabular_live_buffered : Config :=
  config "TCP" "" true false true true.
Definition binary_live_buffered : Config :=
  config "TCP" "" true false false true.
Definition tabular_two : Config := config "TCP,DNS" "" true false true false.
Definition only_TCP : Config := config "TCP" "" false false false false.
Definition everything : Config := config "" "" false false false false.

(** The TCP encoder after [Init] for plain tabular output. *)
Definition TCP_tabular : Enc :=
  match Init LayerType_String filepath_Join BlockSize (encoder "TCP")
          false false true "out" false loaded with
  | Ok d _ => d
  | Halt _ _ => encoder "TCP"
  end.

(** The scenarios of the specification. *)
Example include_TCP_DNS :
  active (state_of (run (config "DNS,TCP" "" false false false false) loaded))
  = ["TCP"; "DNS"].
Proof. vm_compute. reflexivity. Qed.

Example exclude_TCP :
  active (state_of (run (config "" "TCP" false false false false) loaded))
  = filter (λ n, n ≠ "TCP") catalog_names.
Proof. vm_compute. reflexivity. Qed.

Example include_and_exclude_DNS :
  active (state_of (run (config "TCP,DNS" "DNS" false false false false) loaded))
  = ["TCP"].
Proof. vm_compute. reflexivity. Qed.

(** C1, at the include list [",TCP"].  Every name is known and TCP is the
    one name included, so the active set of the claim is TCP alone; the call
    returns with the whole catalog active, because the guard of line 128
    looks at the first entry of the list only, which is empty.  Without the
    leading comma the same list selects TCP alone. *)
Theorem leading_comma_include_ignored :
  named (strings_Split (IncludeEncoders include_leading_comma) ",") = ["TCP"] ∧
  Resolve_names include_leading_comma catalog_names = ["TCP"] ∧
  returned (run include_leading_comma loaded) = true ∧
  active (state_of (run include_leading_comma loaded)) = catalog_names ∧
  active (state_of (run only_TCP loaded)) = ["TCP"].
Proof. split_and!; vm_compute; reflexivity. Qed.

(** C4, at the include list [",BOGUS"].  BOGUS is no name of the catalog,
    yet the call returns and has built and registered all 29 encoders: the
    names of an include list whose first entry is empty are never checked. *)
Theorem leading_comma_unknown_name_accepted :
  "BOGUS" ∈ named (strings_Split (IncludeEncoders include_leading_comma_unknown) ",") ∧
  ("BOGUS" ∉ allEncoderNames) ∧
  returned (run include_leading_comma_unknown loaded) = true ∧
  size (LayerEncoders (state_of (run include_leading_comma_unknown loaded))) = 29.
Proof.
  split_and!.
  - vm_compute. apply list_elem_of_here.
  - compute_done.
  - vm_compute. reflexivity.
  - vm_compute. reflexivity.
Qed.

(** C3 as stated fails for tabular output: with the live stream and a
    buffer asked for, the call returns, and the file of the TCP encoder is
    created and its header written. *)
Lemma tabular_live_stream_not_rejected :
  WriteChan tabular_live_buffered = true ∧
  Buffer tabular_live_buffered = true ∧
  returned (run tabular_live_buffered loaded) = true ∧
  trace (state_of (run tabular_live_buffered loaded))
  = [EvCreateFile "out/TCP" ".csv";
     EvWrite (csv_WriteHeader
                (NewCSVWriter
                   (bufio_NewWriterSize
                      (w_file (Some (os_File "out/TCP" ".csv"))) 4096))
                "header TCP") None].
Proof. split_and!; vm_compute; reflexivity. Qed.

Lemma live_stream_rejected_for_binary_output_witness :
  WriteChan binary_live_buffered = true ∧
  Buffer binary_live_buffered || Compression binary_live_buffered = true ∧
  CSV binary_live_buffered = false ∧
  Init LayerType_String filepath_Join BlockSize (encoder "TCP")
    true false false "out" true loaded
  = Halt (PanicString
      "buffering or compression cannot be activated when running using writeChan")
      loaded ∧
  trace (state_of (run binary_live_buffered loaded)) = trace loaded.
Proof.
  split; [reflexivity|]. split; [reflexivity|]. split; [reflexivity|].
  destruct (live_stream_rejected_for_binary_output LayerType_String
              netcap_InitRecord NewHeader filepath_Join BlockSize
              allEncoderNames writes_succeed binary_live_buffered
              (encoder "TCP") loaded eq_refl eq_refl) as [Hbinary _].
  destruct (Hbinary eq_refl) as (Hinit & Htrace & _).
  split; [exact Hinit | exact Htrace].
Defined.

Lemma header_written_once_at_initialization_witness :
  trace (state_of (run tabular_two loaded))
  = trace loaded
    ++ flat_map (init_events LayerType_String netcap_InitRecord NewHeader
                   filepath_Join tabular_two)
         (layerEncoderSlice (state_of (run tabular_two loaded))) ∧
  run_failing tabular_two loaded
  = Halt (PanicError "no space left on device")
      (state_of (run_failing tabular_two loaded)).
Proof.
  split.
  - destruct (header_written_once_at_initialization LayerType_String
                utils_TimeToString netcap_InitRecord NewHeader filepath_Join
                BlockSize allEncoderNames writes_succeed tabular_two loaded)
      as (Hreturns & _ & _).
    destruct (Hreturns (state_of (run tabular_two loaded))) as [_ Htrace].
    + vm_compute. reflexivity.
    + exact Htrace.
  - destruct (header_written_once_at_initialization LayerType_String
                utils_TimeToString netcap_InitRecord NewHeader filepath_Join
                BlockSize allEncoderNames writes_fail tabular_two loaded)
      as (_ & Hfails & _).
    apply (Hfails
             (trace (state_of (run_failing tabular_two loaded)))
             (EvWrite (csv_WriteHeader
                         (NewCSVWriter
                            (bufio_NewWriterSize
                               (w_file (Some (os_File "out/TCP" ".csv"))) 4096))
                         "header TCP")
                (Some "no space left on device"))).
    + reflexivity.
    + vm_compute. apply list_elem_of_further, list_elem_of_here.
    + reflexivity.
Defined.

Lemma Encode_not_applicable_witness :
  Handler (encoder "TCP") "" (utils_TimeToString "12:00") = None ∧
  Encode utils_TimeToString writes_succeed (encoder "TCP") "" "12:00" loaded
  = Ok None loaded ∧
  trace (state_of (Encode utils_TimeToString writes_succeed (encoder "TCP")
                     "" "12:00" loaded))
  = trace loaded.
Proof.
  split; [reflexivity|].
  apply (Encode_not_applicable utils_TimeToString writes_succeed
           (encoder "TCP") "" "12:00" loaded).
  reflexivity.
Defined.

Lemma Encode_returns_write_error_witness :
  Encode utils_TimeToString writes_fail TCP_tabular "SYN" "12:00" loaded
  = Ok (Some "no space left on device")
       (with_events
          [EvWrite (csv_WriteRecord
                      (NewCSVWriter (w_file (Some (os_File "out/TCP" ".csv"))))
                      "12:00 SYN")
             (Some "no space left on device")] loaded).
Proof.
  apply (Encode_returns_write_error utils_TimeToString writes_fail
           TCP_tabular "SYN" "12:00" loaded "12:00 SYN").
  - reflexivity.
  - reflexivity.
  - reflexivity.
Defined.

Lemma sink_file_name_witness :
  file_backed false false = true ∧
  ∃ d', Init LayerType_String filepath_Join BlockSize (encoder "DNS")
          false true false "out" false loaded
        = Ok d' (with_events [EvCreateFile "out/DNS" ".ncap.gz"] loaded) ∧
        file d' = Some (os_File "out/DNS" ".ncap.gz").
Proof.
  split; [reflexivity|].
  destruct (sink_file_name LayerType_String filepath_Join BlockSize
              (encoder "DNS") false true false "out" false loaded eq_refl)
    as [Hfile _].
  exact Hfile.
Defined.

(** After a first call that includes TCP alone, a second call that
    includes everything has TCP alone to select from; on the package as
    loaded it selects the whole catalog. *)
Lemma second_call_resolves_remnant_witness :
  active (state_of (run only_TCP loaded)) = ["TCP"] ∧
  active (state_of (run everything (state_of (run only_TCP loaded)))) = ["TCP"] ∧
  active (state_of (run everything loaded)) = catalog_names.
Proof.
  destruct (second_call_resolves_remnant LayerType_String netcap_InitRecord
              NewHeader filepath_Join BlockSize allEncoderNames writes_succeed
              only_TCP everything loaded
              (state_of (run only_TCP loaded))
              (state_of (run everything (state_of (run only_TCP loaded)))))
    as [Hfirst Hsecond].
  - split; compute_done.
  - split; compute_done.
  - left. compute_done.
  - right. vm_compute. reflexivity.
  - compute_done.
  - vm_compute. reflexivity.
  - vm_compute. reflexivity.
  - split_and!.
    + etrans; [exact Hfirst|]. vm_compute. reflexivity.
    + etrans; [exact Hsecond|]. vm_compute. reflexivity.
    + vm_compute. reflexivity.
Defined.

(** ** Instances for the further properties *)

Definition CloseFile_result (t : list (@Event string string)) (outDir : string)
    (f : option File) (typ : string) : string * Z :=
  (match f with Some (os_File name ext) => name +:+ ext | None => "" end, 0%Z).

Definition include_and_exclude : Config :=
  config "TCP,DNS" "DNS" false false false false.
Definition include_unknown : Config :=
  config "BOGUS" "" false false false false.
Definition binary_live : Config := config "TCP" "" false false false true.

(** The encoder that [Init] returns for [name] with the given flags. *)
Definition built (name : string) (buffer compress tabular live : bool) : Enc :=
  match Init LayerType_String filepath_Join BlockSize (encoder name)
          buffer compress tabular "out" live loaded with
  | Ok d _ => d
  | Halt _ _ => encoder name
  end.

Definition after_Init (name : string) (buffer compress tabular live : bool)
    : State :=
  state_of (Init LayerType_String filepath_Join BlockSize (encoder name)
              buffer compress tabular "out" live loaded).

Lemma resolution_as_specified_witness :
  resolve LayerType_String allEncoderNames include_and_exclude loaded
  = Ok tt (with_slice
             (Resolve_spec LayerType_String include_and_exclude
                (layerEncoderSlice loaded)) loaded).
Proof.
  destruct (resolution_as_specified LayerType_String netcap_InitRecord
              NewHeader filepath_Join BlockSize allEncoderNames writes_succeed
              include_and_exclude loaded) as [Hresolve _].
  - split; compute_done.
  - left. compute_done.
  - compute_done.
  - exact Hresolve.
Defined.

Lemma leading_empty_entry_drops_include_list_witness :
  resolve LayerType_String allEncoderNames include_leading_comma loaded
  = resolve LayerType_String allEncoderNames
      (without_include include_leading_comma) loaded.
Proof.
  apply (leading_empty_entry_drops_include_list LayerType_String
           allEncoderNames include_leading_comma loaded).
  reflexivity.
Defined.

Lemma unknown_name_stops_before_any_build_witness :
  ∃ n s', (n ∉ allEncoderNames) ∧
          run include_unknown loaded = Halt (ExitInvalidProto n) s' ∧
          trace s' = trace loaded ∧ LayerEncoders s' = LayerEncoders loaded.
Proof.
  apply (unknown_name_stops_before_any_build LayerType_String netcap_InitRecord
           NewHeader filepath_Join BlockSize allEncoderNames writes_succeed
           include_unknown loaded).
  left. split; compute_done.
Defined.

Lemma active_set_is_sublist_of_slice_witness :
  active (state_of (run tabular_two loaded)) `sublist_of` active loaded ∧
  (length (layerEncoderSlice (state_of (run tabular_two loaded)))
   ≤ length (layerEncoderSlice loaded))%nat.
Proof.
  apply (active_set_is_sublist_of_slice LayerType_String netcap_InitRecord
           NewHeader filepath_Join BlockSize allEncoderNames writes_succeed
           tabular_two loaded).
  vm_compute. reflexivity.
Defined.

Lemma excluded_name_is_never_active_witness :
  "DNS" ∉ active (state_of (run include_and_exclude loaded)).
Proof.
  apply (excluded_name_is_never_active LayerType_String netcap_InitRecord
           NewHeader filepath_Join BlockSize allEncoderNames writes_succeed
           include_and_exclude loaded).
  - compute_done.
  - vm_compute. reflexivity.
  - compute_done.
Defined.

Lemma same_configuration_twice_witness :
  active (state_of (run tabular_two (state_of (run tabular_two loaded))))
  = active (state_of (run tabular_two loaded)).
Proof.
  apply (same_configuration_twice LayerType_String netcap_InitRecord
           NewHeader filepath_Join BlockSize allEncoderNames writes_succeed
           tabular_two loaded).
  - split; compute_done.
  - left. compute_done.
  - compute_done.
  - vm_compute. reflexivity.
  - vm_compute. reflexivity.
Defined.

Lemma registry_after_initialization_witness :
  (∀ e, e ∈ layerEncoderSlice (state_of (run tabular_two loaded)) →
        LayerEncoders (state_of (run tabular_two loaded)) !! Layer_ e = Some e) ∧
  LayerEncoders (state_of (run tabular_two loaded)) !! "UDP"
  = LayerEncoders loaded !! "UDP".
Proof.
  destruct (registry_after_initialization LayerType_String netcap_InitRecord
              NewHeader filepath_Join BlockSize allEncoderNames writes_succeed
              tabular_two loaded (state_of (run tabular_two loaded)))
    as [Hactive Hother].
  - vm_compute. reflexivity.
  - split.
    + apply Hactive. compute_done.
    + apply Hother. compute_done.
Defined.

Lemma Init_writer_stack_witness :
  file (built "TCP" true true false false)
  = Some (os_File "out/TCP" ".ncap.gz") ∧
  aWriter (built "TCP" true true false false)
  = Some (NewAtomicDelimitedWriter
            (Some (delimited_NewWriter
                     (gzip_NewWriter
                        (bufio_NewWriterSize
                           (w_file (Some (os_File "out/TCP" ".ncap.gz")))
                           4096))))).
Proof.
  destruct (Init_writer_stack LayerType_String filepath_Join BlockSize
              (encoder "TCP") (built "TCP" true true false false)
              true true false "out" false loaded
              (after_Init "TCP" true true false false))
    as (Hfile & _ & _ & _ & Hbinary).
  - vm_compute. reflexivity.
  - reflexivity.
  - split; [exact Hfile | exact (proj2 (Hbinary eq_refl))].
Defined.

Lemma live_stream_creates_no_file_witness :
  trace (state_of (run binary_live loaded))
  = [EvNewChanWriter;
     EvWrite (PutProto
                (NewAtomicDelimitedWriter
                   (Some (delimited_NewWriter newChanWriter)))
                "header TCP") None].
Proof.
  etrans.
  - apply (live_stream_creates_no_file LayerType_String netcap_InitRecord
             NewHeader filepath_Join BlockSize allEncoderNames writes_succeed
             binary_live loaded).
    + reflexivity.
    + reflexivity.
    + vm_compute. reflexivity.
  - vm_compute. reflexivity.
Defined.

Lemma Destroy_after_Init_witness :
  trace (state_of (Destroy LayerType_String CloseFile_result
                     (built "TCP" true true false false) loaded))
  = [EvCloseGzipWriters
       (Some (gzip_NewWriter
                (bufio_NewWriterSize
                   (w_file (Some (os_File "out/TCP" ".ncap.gz"))) 4096)));
     EvFlushWriters
       (Some (bufio_NewWriterSize
                (w_file (Some (os_File "out/TCP" ".ncap.gz"))) 4096));
     EvCloseFile "out" (Some (os_File "out/TCP" ".ncap.gz")) "TCP"].
Proof.
  apply (Destroy_after_Init LayerType_String filepath_Join BlockSize
           CloseFile_result (encoder "TCP")
           (built "TCP" true true false false) true true false "out" false
           loaded (after_Init "TCP" true true false false) loaded).
  - vm_compute. reflexivity.
  - reflexivity.
Defined.

Lemma Destroy_live_stream_closes_nil_file_witness :
  trace (after_Init "TCP" false false false true) = [EvNewChanWriter] ∧
  trace (state_of (Destroy LayerType_String CloseFile_result
                     (built "TCP" false false false true) loaded))
  = [EvCloseFile "out" None "TCP"].
Proof.
  apply (Destroy_live_stream_closes_nil_file LayerType_String filepath_Join
           BlockSize CloseFile_result "TCP" "TCP" handler false false "out"
           (built "TCP" false false false true) loaded
           (after_Init "TCP" false false false true) loaded).
  vm_compute. reflexivity.
Defined.

Lemma Encode_on_built_encoder_witness :
  ∃ op, (∃ w, csvWriter TCP_tabular = Some w ∧ op = csv_WriteRecord w "12:00 SYN") ∧
        Encode utils_TimeToString writes_succeed TCP_tabular "SYN" "12:00" loaded
        = Ok (writes_succeed (trace loaded) op)
             (with_events [EvWrite op (writes_succeed (trace loaded) op)] loaded).
Proof.
  apply (Encode_on_built_encoder LayerType_String utils_TimeToString
           filepath_Join BlockSize writes_succeed (encoder "TCP") TCP_tabular
           false false true "out" false loaded
           (after_Init "TCP" false false true false) loaded "SYN" "12:00").
  vm_compute. reflexivity.
Defined.

Lemma GetChan_after_Init_witness :
  GetChan (built "TCP" false false false true) loaded = Ok newChanWriter loaded ∧
  GetChan (built "TCP" false false true true) loaded
  = Halt PanicNilPointer loaded.
Proof.
  split.
  - refine (proj2 (GetChan_after_Init LayerType_String filepath_Join BlockSize
             "TCP" "TCP" handler false false false "out" true
             (built "TCP" false false false true) loaded
             (after_Init "TCP" false false false true) loaded _)).
    vm_compute. reflexivity.
  - refine (proj2 (GetChan_after_Init LayerType_String filepath_Join BlockSize
             "TCP" "TCP" handler false false true "out" true
             (built "TCP" false false true true) loaded
             (after_Init "TCP" false false true true) loaded _)).
    vm_compute. reflexivity.
Defined.

Lemma include_list_read_by_first_character_witness :
  resolve LayerType_String allEncoderNames include_leading_comma loaded
  = exclude_loop LayerType_String allEncoderNames
      (strings_Split (ExcludeEncoders include_leading_comma) ",") loaded.
Proof.
  apply (proj2 (include_list_read_by_first_character LayerType_String
                  allEncoderNames include_leading_comma loaded)).
  intros [_ Hhead]. by apply Hhead.
Defined.

Lemma records_written_in_call_order_witness :
  ∃ errs s3 t,
    Encode_each utils_TimeToString writes_succeed TCP_tabular
      [("SYN", "12:00"); ("", "12:01"); ("ACK", "12:02")] loaded
    = Ok errs s3 ∧
    length errs = 3 ∧
    trace s3 = trace loaded ++ t ∧
    event_op <$> t
    = [Some (csv_WriteRecord
               (NewCSVWriter (w_file (Some (os_File "out/TCP" ".csv"))))
               "12:00 SYN");
       Some (csv_WriteRecord
               (NewCSVWriter (w_file (Some (os_File "out/TCP" ".csv"))))
               "12:02 ACK")].
Proof.
  apply (records_written_in_call_order LayerType_String utils_TimeToString
           filepath_Join BlockSize writes_succeed (encoder "TCP") TCP_tabular
           false false true "out" false loaded
           (after_Init "TCP" false false true false)
           [("SYN", "12:00"); ("", "12:01"); ("ACK", "12:02")] loaded).
  vm_compute. reflexivity.
Defined.

Lemma remove_encoder_first_match_witness :
  ∃ before e after,
    catalog = before ++ e :: after ∧ name_of LayerType_String e = "UDP" ∧
    ("UDP" ∉ name_of LayerType_String <$> before) ∧
    remove_encoder LayerType_String "UDP" catalog = before ++ after.
Proof.
  apply (proj2 (remove_encoder_first_match LayerType_String "UDP" catalog)).
  compute_done.
Defined.

Lemma InitLayerEncoders_returns_witness :
  ∃ s', run tabular_two loaded = Ok tt s'.
Proof.
  apply (InitLayerEncoders_returns LayerType_String netcap_InitRecord
           NewHeader filepath_Join BlockSize allEncoderNames writes_succeed
           tabular_two loaded).
  - intros t op. reflexivity.
  - split; compute_done.
  - left. reflexivity.
Defined.

Definition live_stream_panic : @Fatal string :=
  PanicString
    "buffering or compression cannot be activated when running using writeChan".

Lemma InitLayerEncoders_stops_witness :
  (∃ n, live_stream_panic = ExitInvalidProto n ∧ n ∉ allEncoderNames) ∨
  (live_stream_panic
   = PanicString
       "buffering or compression cannot be activated when running using writeChan" ∧
   CSV binary_live_buffered = false ∧
   live_stream_conflict (Buffer binary_live_buffered)
     (Compression binary_live_buffered) (WriteChan binary_live_buffered) = true) ∨
  (∃ err : string, live_stream_panic = PanicError err).
Proof.
  apply (InitLayerEncoders_stops LayerType_String netcap_InitRecord
           NewHeader filepath_Join BlockSize allEncoderNames writes_succeed
           binary_live_buffered loaded
           (state_of (run binary_live_buffered loaded))).
  vm_compute. reflexivity.
Defined.

End Concrete.
